(** * brainrender.actor: the Actor wrapper and the label synthesizer

    A shallow embedding of [brainrender/actor.py].  Engine objects (vedo
    meshes, texts, spheres) live in a store and are addressed by location,
    because the source updates them in place ([self.mesh.c(color)],
    [sphere.compute_normals()] after the sphere was appended to the result).
    Exceptions are values of [exn]; a computation returns its outcome
    together with the store it leaves behind, so that what was mutated
    before an exception stays visible.

    Coordinates are exact integers (atlas space is measured in whole
    micrometres); rounding of floating-point coordinates is not modelled. *)

From Stdlib Require Import ZArith QArith Lia Ascii String.
From stdpp Require Import base option list strings.

Local Open Scope Z_scope.

(** ** Python values and exceptions *)

(** The values that cross the interfaces of this module untouched: label
    texts, colours, sizes, radii and the attribute values of engine
    objects.  [POpaque] is any other object, known by a tag only. *)
#[warnings="-register-all"] Inductive pyval : Type :=
| PNone
| PBool (b : bool)
| PInt (z : Z)
| PFloat (q : Q)
| PStr (s : string)
| PList (l : list pyval)
| POpaque (tag : string).

(** Truth value of an object in a condition ([if color:], [x or y]). *)
Definition truthy (v : pyval) : bool :=
  match v with
  | PNone => false
  | PBool b => b
  | PInt z => negb (z =? 0)
  | PFloat q => negb (Qnum q =? 0)
  | PStr s => negb (String.eqb s "")
  | PList l => match l with [] => false | _ => true end
  | POpaque _ => true
  end.

(** [name or "Actor"] for a name that is [None] or a string. *)
Definition str_or (v : option string) (dflt : string) : string :=
  match v with
  | Some s => if String.eqb s "" then dflt else s
  | None => dflt
  end.

Inductive exn : Type :=
| AttributeError
| KeyError
| IndexError
| ValueError
| TypeError
| RuntimeError.

Inductive result (A : Type) : Type :=
| Ok (a : A)
| Raise (e : exn).
Arguments Ok {A} a.
Arguments Raise {A} e.

(** ** Computations over a mutable state *)

Definition prog (S A : Type) : Type := S → result A * S.

#[global] Instance prog_ret {S} : MRet (prog S) := λ A a s, (Ok a, s).

#[global] Instance prog_bind {S} : MBind (prog S) := λ A B f m s,
  match m s with
  | (Ok a, s') => f a s'
  | (Raise e, s') => (Raise e, s')
  end.

Definition raise {S A} (e : exn) : prog S A := λ s, (Raise e, s).

Definition lift_result {S A} (r : result A) : prog S A := λ s, (r, s).

(** [for x in xs: acc = body(acc, x)] *)
Fixpoint for_each {S A B} (body : B → A → prog S B) (xs : list A) (acc : B)
  : prog S B :=
  match xs with
  | [] => mret acc
  | x :: xs' => acc' ← body acc x; for_each body xs' acc'
  end.

(** ** Points and the numpy operations on them *)

Record vec3 : Type := V3 { vx : Z; vy : Z; vz : Z }.

Definition vadd (a b : vec3) : vec3 :=
  V3 (vx a + vx b) (vy a + vy b) (vz a + vz b).

Definition vmul (a b : vec3) : vec3 :=
  V3 (vx a * vx b) (vy a * vy b) (vz a * vz b).

(** [p[2] = -p[2]] *)
Definition negate_third (p : vec3) : vec3 := V3 (vx p) (vy p) (- vz p).

(** [np.argmin]: the first index of the smallest entry; an empty array
    raises [ValueError]. *)
Fixpoint argmin_from (best_i : nat) (best : Z) (i : nat) (l : list Z) : nat :=
  match l with
  | [] => best_i
  | x :: l' =>
      if x <? best then argmin_from i x (S i) l'
      else argmin_from best_i best (S i) l'
  end.

Definition np_argmin (l : list Z) : result nat :=
  match l with
  | [] => Raise ValueError
  | x :: l' => Ok (argmin_from 0 x 1 l')
  end.

(** [points[i, :]] *)
Definition np_row (points : list vec3) (i : nat) : result vec3 :=
  match points !! i with
  | Some p => Ok p
  | None => Raise IndexError
  end.

(** ** External collaborators *)

(** The geometry engine (vedo), as far as this module calls it.  A value of
    [Mesh] is the state of one engine object; the methods that vedo applies
    to the object itself are functions from the old state to the new one. *)
Class GeometryFacade (Mesh : Type) : Type := {
  (** [mesh.vertices] *)
  vertices : Mesh → list vec3;
  (** [mesh.center_of_mass()] *)
  center_of_mass : Mesh → vec3;
  (** [mesh.closest_point(p)] *)
  closest_point : Mesh → vec3 → vec3;
  (** [mesh.c(color)], [mesh.alpha(a)], [mesh.lw(w)] *)
  mesh_c : pyval → Mesh → Mesh;
  mesh_alpha : pyval → Mesh → Mesh;
  mesh_lw : pyval → Mesh → Mesh;
  (** [mesh.mirror(axis, origin)] *)
  mesh_mirror : string → option vec3 → Mesh → Mesh;
  (** [mesh.silhouette()]: the state of the new outline object *)
  mesh_silhouette : Mesh → Mesh;
  (** whether vedo has a plotter with a camera: [silhouette()] looks from
      it, and without one it logs an error and returns the mesh itself *)
  plotter_has_camera : bool;
  (** [obj.rotate_x(deg)], [obj.rotate_y(deg)], [obj.compute_normals()] *)
  rotate_x : Z → Mesh → Mesh;
  rotate_y : Z → Mesh → Mesh;
  compute_normals : Mesh → Mesh;
  (** [obj.ancor = pt] *)
  set_ancor : vec3 → Mesh → Mesh;
  (** [getattr(obj, attr)] for an attribute name; [None] when the object
      has no such attribute *)
  mesh_attr : Mesh → string → option pyval;
  (** [Text3D(txt, pos, s=, c=, depth=)] and [Sphere(pos, r=, c=, res=)] *)
  Text3D : pyval → vec3 → pyval → pyval → Q → Mesh;
  Sphere : vec3 → pyval → pyval → Z → Mesh;
}.

(** [brainglobe_space.AnatomicalSpace]: only [get_axis_idx] is used. *)
Record AnatomicalSpace : Type := { get_axis_idx : string → Z }.

(** The constructor [AnatomicalSpace(origin)]. *)
Class AnatomicalSpaces : Type := { AnatomicalSpace_of : string → AnatomicalSpace }.

(** The atlas object handed to the label synthesizer and to [mirror]. *)
Record Atlas : Type := {
  hemisphere_from_coords : vec3 → result string;
  mirror_point_across_hemispheres : vec3 → result vec3;
  space : AnatomicalSpace;
}.

(** An argument that is one object or a list of them. *)
Inductive one_or_many (A : Type) : Type :=
| One (a : A)
| Many (l : list A).
Arguments One {A} a.
Arguments Many {A} l.

(** Modelled from the spec: [listify] of [brainrender._utils], which is not
    among the sources.  The synthesizer takes "one or more" actors: a list
    is used as it is, anything else becomes a one-element list. *)
Definition listify {A} (obj : one_or_many A) : list A :=
  match obj with
  | One a => [a]
  | Many l => l
  end.

(** Modelled from the spec: the same [listify], on the labels. *)
Definition listify_val (obj : pyval) : list pyval :=
  match obj with
  | PList l => l
  | _ => [obj]
  end.

(** ** The Actor *)

Definition loc : Type := nat.

(** Keyword arguments stored for [make_actor_label]; a field is [None] when
    the key is absent and the default of the signature applies. *)
Record label_kwargs : Type := {
  kw_size : option pyval;
  kw_color : option pyval;
  kw_radius : option pyval;
  kw_xoffset : option Z;
  kw_yoffset : option Z;
  kw_zoffset : option Z;
}.

(** The dictionary read by [make_silhouette]. *)
Record silhouette_kwargs : Type := {
  sk_lw : option pyval;
  sk_color : option pyval;
}.

(** An Actor object.  [mesh], [name], [br_class] and [is_text] are set by
    [__init__].  Each [own_] field is an entry of the instance dictionary
    that may be missing: for the first six the class attribute is read
    then, the last four have no class attribute. *)
#[warnings="-register-all"] Inductive Actor : Type := mkActor {
  mesh : loc;
  name : string;
  br_class : string;
  is_text : bool;
  own_needs_label : option bool;
  own_needs_silhouette : option bool;
  own_is_transformed : option bool;
  own_is_added : option bool;
  own_labels : option (list Actor);
  own_silhouette : option (option Actor);
  own__mesh : option loc;
  own_label_str : option pyval;
  own_label_kwargs : option label_kwargs;
  own_silhouette_kwargs : option silhouette_kwargs;
}.

(** Reads that fall back on the class attributes (lines 82-88). *)
Definition _needs_label (self : Actor) : bool := default false (own_needs_label self).
Definition _needs_silhouette (self : Actor) : bool := default false (own_needs_silhouette self).
Definition _is_transformed (self : Actor) : bool := default false (own_is_transformed self).
Definition _is_added (self : Actor) : bool := default false (own_is_added self).
Definition labels (self : Actor) : list Actor := default [] (own_labels self).
Definition silhouette (self : Actor) : option Actor := default None (own_silhouette self).

(** Attribute assignments. *)
Definition set_mesh (l : loc) (a : Actor) : Actor :=
  mkActor l (name a) (br_class a) (is_text a) (own_needs_label a)
    (own_needs_silhouette a) (own_is_transformed a) (own_is_added a)
    (own_labels a) (own_silhouette a) (own__mesh a) (own_label_str a)
    (own_label_kwargs a) (own_silhouette_kwargs a).

Definition set_needs_label (b : bool) (a : Actor) : Actor :=
  mkActor (mesh a) (name a) (br_class a) (is_text a) (Some b)
    (own_needs_silhouette a) (own_is_transformed a) (own_is_added a)
    (own_labels a) (own_silhouette a) (own__mesh a) (own_label_str a)
    (own_label_kwargs a) (own_silhouette_kwargs a).

Definition set_needs_silhouette (b : bool) (a : Actor) : Actor :=
  mkActor (mesh a) (name a) (br_class a) (is_text a) (own_needs_label a)
    (Some b) (own_is_transformed a) (own_is_added a)
    (own_labels a) (own_silhouette a) (own__mesh a) (own_label_str a)
    (own_label_kwargs a) (own_silhouette_kwargs a).

Definition set_is_transformed (b : bool) (a : Actor) : Actor :=
  mkActor (mesh a) (name a) (br_class a) (is_text a) (own_needs_label a)
    (own_needs_silhouette a) (Some b) (own_is_added a)
    (own_labels a) (own_silhouette a) (own__mesh a) (own_label_str a)
    (own_label_kwargs a) (own_silhouette_kwargs a).

Definition set_labels (ls : list Actor) (a : Actor) : Actor :=
  mkActor (mesh a) (name a) (br_class a) (is_text a) (own_needs_label a)
    (own_needs_silhouette a) (own_is_transformed a) (own_is_added a)
    (Some ls) (own_silhouette a) (own__mesh a) (own_label_str a)
    (own_label_kwargs a) (own_silhouette_kwargs a).

Definition set_silhouette (s : option Actor) (a : Actor) : Actor :=
  mkActor (mesh a) (name a) (br_class a) (is_text a) (own_needs_label a)
    (own_needs_silhouette a) (own_is_transformed a) (own_is_added a)
    (own_labels a) (Some s) (own__mesh a) (own_label_str a)
    (own_label_kwargs a) (own_silhouette_kwargs a).

Section Embedding.
Context {Mesh : Type} `{GeometryFacade Mesh} `{AnatomicalSpaces}.

(** ** The store of engine objects *)

(** Creating an engine object puts it at the next free location. *)
Definition new_obj (m : Mesh) : prog (list Mesh) loc :=
  λ σ, (Ok (length σ), σ ++ [m]).

(** Reading from the object at [l].  Python has no dangling reference; a
    location outside the store stops the model with [RuntimeError]. *)
Definition obj_get {A} (l : loc) (g : Mesh → A) : prog (list Mesh) A :=
  λ σ, match σ !! l with
       | Some m => (Ok (g m), σ)
       | None => (Raise RuntimeError, σ)
       end.

(** A method that updates the object at [l] in place. *)
Definition obj_call (l : loc) (f : Mesh → Mesh) : prog (list Mesh) unit :=
  λ σ, match σ !! l with
       | Some m => (Ok tt, <[l := f m]> σ)
       | None => (Raise RuntimeError, σ)
       end.

(** [hasattr(obj, attr)] and [getattr(obj, attr)] on an engine object. *)
Definition py_hasattr (l : loc) (attr : string) : prog (list Mesh) bool :=
  obj_get l (λ m, match mesh_attr m attr with Some _ => true | None => false end).

Definition py_getattr (l : loc) (attr : string) : prog (list Mesh) pyval :=
  v ← obj_get l (λ m, mesh_attr m attr);
  match v with
  | Some v => mret v
  | None => raise AttributeError
  end.

(** ** Attribute delegation (lines 124-149) *)

Definition mesh_attributes : list string := ["center_of_mass"%string].

(** [Actor.__getattr__], which Python calls for a name that neither the
    instance dictionary nor the class defines.  Every [Actor] value has its
    [mesh], so the guard of lines 129-132 is passed.  An [AttributeError]
    of [getattr(self.__dict__["_mesh"], attr)] is not a [KeyError] and
    leaves the function. *)
Definition __getattr__ (self : Actor) (attr : string) : prog (list Mesh) pyval :=
  if bool_decide (attr ∈ mesh_attributes) then
    b ← py_hasattr (mesh self) attr;
    if b : bool then py_getattr (mesh self) attr else raise AttributeError
  else
    match own__mesh self with
    | Some m2 => py_getattr m2 attr
    | None =>
        b ← py_hasattr (mesh self) attr;
        if b : bool then py_getattr (mesh self) attr else raise AttributeError
    end.

(** The object that answers [self.<attr>(...)] for a method of the engine
    that the Actor does not define itself. *)
Definition delegate (self : Actor) (attr : string) : loc :=
  if bool_decide (attr ∈ mesh_attributes) then mesh self
  else default (mesh self) (own__mesh self).

(** Reads of the entries that have no class attribute.  A value found on
    the engine object instead is not a mapping ([**v] and [v["lw"]] raise
    [TypeError]) and has no [silhouette] method. *)
Definition get_label_str (self : Actor) : prog (list Mesh) pyval :=
  match own_label_str self with
  | Some v => mret v
  | None => __getattr__ self "_label_str"
  end.

Definition get_label_kwargs (self : Actor) : prog (list Mesh) label_kwargs :=
  match own_label_kwargs self with
  | Some kw => mret kw
  | None => _ ← __getattr__ self "_label_kwargs"; raise TypeError
  end.

Definition get_silhouette_kwargs (self : Actor) : prog (list Mesh) silhouette_kwargs :=
  match own_silhouette_kwargs self with
  | Some kw => mret kw
  | None => _ ← __getattr__ self "_silhouette_kwargs"; raise TypeError
  end.

Definition get__mesh (self : Actor) : prog (list Mesh) loc :=
  match own__mesh self with
  | Some l => mret l
  | None => _ ← __getattr__ self "_mesh"; raise AttributeError
  end.

(** [d[key]] on a dictionary entry. *)
Definition subscript {S} (entry : option pyval) : prog S pyval :=
  match entry with
  | Some v => mret v
  | None => raise KeyError
  end.

(** ** The label synthesizer (lines 19-78) *)

Definition default_offset : vec3 := V3 0 (-200) 100.

(** [[0.2, 0.2, 0.2]] *)
Definition default_color : pyval :=
  PList [PFloat (1 # 5); PFloat (1 # 5); PFloat (1 # 5)].

(** Lines 48-49. *)
Definition color_or_default (color : pyval) : pyval :=
  match color with
  | PNone => default_color
  | _ => color
  end.

(** Lines 52-55: the mesh's highest point, shifted and flipped.  The list
    stands for an array of rows of three; on one without rows [argmin]
    raises.  An engine mesh without any point may hand out a flat empty
    array instead, on which [points[:, 1]] raises before [argmin] is
    reached: the statements below leave open which exception an empty mesh
    raises. *)
Definition label_point (points : list vec3) (offset : vec3) : result vec3 :=
  match np_argmin (vy <$> points) with
  | Raise e => Raise e
  | Ok i =>
      match np_row points i with
      | Raise e => Raise e
      | Ok point =>
          let point := vadd point (vadd offset default_offset) in
          Ok (negate_third point)
      end
  end.

(** Lines 57-61: only [IndexError] is caught. *)
Definition hemisphere_fix (atlas : Atlas) (point : vec3) : result vec3 :=
  match hemisphere_from_coords atlas point with
  | Ok h =>
      if String.eqb h "left" then
        match mirror_point_across_hemispheres atlas point with
        | Ok p => Ok p
        | Raise IndexError => Ok point
        | Raise e => Raise e
        end
      else Ok point
  | Raise IndexError => Ok point
  | Raise e => Raise e
  end.

(** One round of the loop of line 46.  The loop variables are [color] and
    [new_actors]; [color] is assigned on line 49 and keeps its value for
    the rounds that follow. *)
Definition label_body (atlas : Atlas) (size radius : pyval) (offset : vec3)
    (vars : pyval * list loc) (pair : Actor * pyval)
  : prog (list Mesh) (pyval * list loc) :=
  let '(color, new_actors) := vars in
  let '(actor, label) := pair in
  let color := color_or_default color in
  points ← obj_get (mesh actor) vertices;
  point ← lift_result (label_point points offset);
  point ← lift_result (hemisphere_fix atlas point);
  txt ← new_obj (Text3D label (vmul point (V3 (-1) (-1) (-1))) size color (1 # 10));
  obj_call txt (rotate_x 180);;
  obj_call txt (rotate_y 180);;
  let new_actors := new_actors ++ [txt] in
  match radius with
  | PNone => mret (color, new_actors)
  | _ =>
      pt ← obj_get (delegate actor "closest_point") (λ m, closest_point m point);
      let pt := negate_third pt in
      sphere ← new_obj (Sphere pt radius color 8);
      obj_call sphere (set_ancor pt);;
      let new_actors := new_actors ++ [sphere] in
      obj_call sphere compute_normals;;
      mret (color, new_actors)
  end.

Definition make_actor_label (atlas : Atlas) (actors : one_or_many Actor)
    (labels : pyval) (size color radius : pyval) (xoffset yoffset zoffset : Z)
  : prog (list Mesh) (list loc) :=
  let offset := V3 (- yoffset) (- zoffset) xoffset in
  vars ← for_each (label_body atlas size radius offset)
           (zip (listify actors) (listify_val labels)) (color, []);
  mret vars.2.

(** The call [make_actor_label(atlas, actors, labels, **kw)] with the
    defaults of the signature. *)
Definition make_actor_label_kw (atlas : Atlas) (actors : one_or_many Actor)
    (labels : pyval) (kw : label_kwargs) : prog (list Mesh) (list loc) :=
  make_actor_label atlas actors labels
    (default (PInt 300) (kw_size kw))
    (default PNone (kw_color kw))
    (default (PInt 100) (kw_radius kw))
    (default 0 (kw_xoffset kw))
    (default (-500) (kw_yoffset kw))
    (default 0 (kw_zoffset kw)).

(** ** Actor methods *)

(** Lines 114-122.  [color] and [alpha] are tested for truth, not against
    [None]. *)
Definition __init__ (mesh : loc) (name br_class : option string)
    (is_text : bool) (color alpha : pyval) : prog (list Mesh) Actor :=
  let self :=
    mkActor mesh (str_or name "Actor") (str_or br_class "None") is_text
      None None None None None None None None None None in
  (if truthy color then obj_call mesh (mesh_c color) else mret tt);;
  (if truthy alpha then obj_call mesh (mesh_alpha alpha) else mret tt);;
  mret self.

(** Lines 161-166. *)
Definition center (self : Actor) : prog (list Mesh) vec3 :=
  obj_get (mesh self) center_of_mass.

(** Lines 168-173. *)
Definition make_actor (mesh : loc) (name br_class : string)
  : prog (list Mesh) Actor :=
  __init__ mesh (Some name) (Some br_class) false PNone PNone.

(** A method runs on the receiver [self] and the store. *)
Definition with_self {A} (f : Actor → prog (list Mesh) A)
  : prog (Actor * list Mesh) A :=
  λ st, let '(r, σ) := f st.1 st.2 in (r, (st.1, σ)).

Definition assign_self (f : Actor → Actor) : prog (Actor * list Mesh) unit :=
  λ st, (Ok tt, (f st.1, st.2)).

(** [[f(x) for x in xs]] *)
Fixpoint comprehension {S A B} (f : A → prog S B) (xs : list A) : prog S (list B) :=
  match xs with
  | [] => mret []
  | x :: xs' => y ← f x; ys ← comprehension f xs'; mret (y :: ys)
  end.

(** Lines 175-189. *)
Definition make_label (atlas : Atlas) : prog (Actor * list Mesh) (list Actor) :=
  label_str ← with_self get_label_str;
  kw ← with_self get_label_kwargs;
  labels ← with_self (λ self, make_actor_label_kw atlas (One self) label_str kw);
  assign_self (set_needs_label false);;
  lbls ← with_self (λ self,
            comprehension (λ label, make_actor label (name self) "label") labels);
  assign_self (set_labels lbls);;
  mret lbls.

(** Lines 191-206.  [self._mesh.silhouette()] is a new outline object when
    vedo has a plotter camera to look from; without one it is [self._mesh]
    itself, and the chained [lw] and [c] then restyle that mesh. *)
Definition make_silhouette : prog (Actor * list Mesh) Actor :=
  kw ← with_self get_silhouette_kwargs;
  lw ← subscript (sk_lw kw);
  kw ← with_self get_silhouette_kwargs;
  color ← subscript (sk_color kw);
  m2 ← with_self get__mesh;
  sil ← with_self (λ _,
           sil ← (if plotter_has_camera
                  then outline ← obj_get m2 mesh_silhouette; new_obj outline
                  else mret m2);
           obj_call sil (mesh_lw lw);;
           obj_call sil (mesh_c color);;
           mret sil);
  sil ← with_self (λ self,
           make_actor sil (name self +:+ " silhouette") "silhouette");
  let sil := set_is_transformed true sil in
  assign_self (set_needs_silhouette false);;
  assign_self (set_silhouette (Some sil));;
  mret sil.

(** Line 229. *)
Definition axis_letter (axis_ind : Z) : string :=
  if axis_ind =? 0 then "x" else if axis_ind =? 1 then "y" else "z".

(** Lines 225-229. *)
Definition resolve_axis (axis : string) (atlas : option Atlas) : string :=
  if bool_decide (axis ∈ ["sagittal"; "vertical"; "frontal"]%string) then
    let anatomical_space :=
      match atlas with
      | Some a => space a
      | None => AnatomicalSpace_of "asr"
      end in
    let axis_ind := get_axis_idx anatomical_space axis in
    axis_letter axis_ind
  else axis.

(** Lines 225-231.  vedo's [mirror] transforms the object and returns it, so
    the assignment stores the location that [self.mesh] already holds. *)
Definition mirror (axis : string) (origin : option vec3) (atlas : option Atlas)
  : prog (Actor * list Mesh) unit :=
  let axis := resolve_axis axis atlas in
  m ← with_self (λ self, obj_call (mesh self) (mesh_mirror axis origin);; mret (mesh self));
  assign_self (set_mesh m).

(** ** Vocabulary of the statements *)

(** The text object of lines 64-67 and the marker of lines 73-76, as they
    are once the round that made them is over. *)
Definition text_obj (label : pyval) (point : vec3) (size color : pyval) : Mesh :=
  rotate_y 180 (rotate_x 180
    (Text3D label (vmul point (V3 (-1) (-1) (-1))) size color (1 # 10))).

Definition marker_obj (pt : vec3) (radius color : pyval) : Mesh :=
  compute_normals (set_ancor pt (Sphere pt radius color 8)).

(** The actor's meshes are objects of the store and the primary one has a
    vertex. *)
Definition has_geometry (σ : list Mesh) (actor : Actor) : Prop :=
  ∃ m m2, σ !! mesh actor = Some m
          ∧ σ !! delegate actor "closest_point" = Some m2
          ∧ vertices m ≠ [].

(** The atlas raises nothing but [IndexError]. *)
Definition only_index_errors (atlas : Atlas) : Prop :=
  ∀ p e, (hemisphere_from_coords atlas p = Raise e → e = IndexError)
         ∧ (mirror_point_across_hemispheres atlas p = Raise e → e = IndexError).

(** What one (actor, label) pair contributes to the result, read off the
    store [σ] the call started from: [a] is the anchor of lines 52-55 and
    [p] the point after the hemisphere correction. *)
Definition pair_objects (atlas : Atlas) (size radius : pyval) (offset : vec3)
    (σ : list Mesh) (color : pyval) (pair : Actor * pyval) (objs : list Mesh) : Prop :=
  ∃ m m2 a p,
    σ !! mesh pair.1 = Some m
    ∧ σ !! delegate pair.1 "closest_point" = Some m2
    ∧ label_point (vertices m) offset = Ok a
    ∧ hemisphere_fix atlas a = Ok p
    ∧ objs = text_obj pair.2 p size color ::
             match radius with
             | PNone => []
             | _ => [marker_obj (negate_third (closest_point m2 p)) radius color]
             end.

(** The object at position [k] of the result is the text of [label] / a
    marker of the given radius. *)
Definition text_at (σ : list Mesh) (ls : list loc) (k : nat)
    (label size color : pyval) : Prop :=
  ∃ l p, ls !! k = Some l ∧ σ !! l = Some (text_obj label p size color).

Definition marker_at (σ : list Mesh) (ls : list loc) (k : nat)
    (radius color : pyval) : Prop :=
  ∃ l pt, ls !! k = Some l ∧ σ !! l = Some (marker_obj pt radius color).

(** How many objects one pair adds to the result (line 70). *)
Definition objects_per_pair (radius : pyval) : nat :=
  match radius with
  | PNone => 1
  | _ => 2
  end.

(** The object at [l] was made with colour [color]. *)
Definition colored (σ : list Mesh) (color : pyval) (l : loc) : Prop :=
  (∃ label p size, σ !! l = Some (text_obj label p size color))
  ∨ (∃ pt radius, σ !! l = Some (marker_obj pt radius color)).

End Embedding.

(** ** A small engine, atlas and anatomical space to run the code on *)

Module Sample.

Record smesh : Type := SMesh {
  sm_vertices : list vec3;
  sm_color : pyval;
  sm_alpha : pyval;
  sm_lw : pyval;
  sm_attrs : list (string * pyval);
}.

Definition assoc (attr : string) (d : list (string * pyval)) : option pyval :=
  snd <$> find (λ kv, String.eqb (fst kv) attr) d.

Definition sum_by (f : vec3 → Z) (l : list vec3) : Z := foldr (λ v acc, f v + acc) 0 l.

Definition centroid (l : list vec3) : vec3 :=
  let n := Z.of_nat (length l) in
  V3 (sum_by vx l / n) (sum_by vy l / n) (sum_by vz l / n).

Definition dist2 (a b : vec3) : Z :=
  (vx a - vx b) * (vx a - vx b) + (vy a - vy b) * (vy a - vy b)
  + (vz a - vz b) * (vz a - vz b).

Definition nearest (l : list vec3) (p : vec3) : vec3 :=
  foldr (λ v best, if dist2 v p <=? dist2 best p then v else best) p l.

Definition reflect (axis : string) (o : vec3) (v : vec3) : vec3 :=
  if String.eqb axis "x" then V3 (2 * vx o - vx v) (vy v) (vz v)
  else if String.eqb axis "y" then V3 (vx v) (2 * vy o - vy v) (vz v)
  else if String.eqb axis "z" then V3 (vx v) (vy v) (2 * vz o - vz v)
  else v.

Definition on_vertices (f : vec3 → vec3) (m : smesh) : smesh :=
  SMesh (f <$> sm_vertices m) (sm_color m) (sm_alpha m) (sm_lw m) (sm_attrs m).

Definition engine (camera : bool) : GeometryFacade smesh := {|
  vertices := sm_vertices;
  center_of_mass m := centroid (sm_vertices m);
  closest_point m p := nearest (sm_vertices m) p;
  mesh_c col m := SMesh (sm_vertices m) col (sm_alpha m) (sm_lw m) (sm_attrs m);
  mesh_alpha a m := SMesh (sm_vertices m) (sm_color m) a (sm_lw m) (sm_attrs m);
  mesh_lw w m := SMesh (sm_vertices m) (sm_color m) (sm_alpha m) w (sm_attrs m);
  mesh_mirror axis origin m := on_vertices (reflect axis (default (V3 0 0 0) origin)) m;
  mesh_silhouette m := SMesh (sm_vertices m) (PStr "black") (PInt 1) (PInt 1) [];
  rotate_x deg := if deg =? 180 then on_vertices (λ v, V3 (vx v) (- vy v) (- vz v)) else id;
  rotate_y deg := if deg =? 180 then on_vertices (λ v, V3 (- vx v) (vy v) (- vz v)) else id;
  compute_normals m := m;
  set_ancor pt m :=
    SMesh (sm_vertices m) (sm_color m) (sm_alpha m) (sm_lw m)
      (("ancor"%string, PList [PInt (vx pt); PInt (vy pt); PInt (vz pt)]) :: sm_attrs m);
  mesh_attr m attr := assoc attr (sm_attrs m);
  Text3D txt pos s col depth :=
    SMesh [pos] col (PInt 1) (PInt 1) [("txt"%string, txt); ("s"%string, s)];
  Sphere pos r col res :=
    SMesh [pos] col (PInt 1) (PInt 1) [("r"%string, r)];
  plotter_has_camera := camera;
|}.

(** The engine with a scene on show, and the one without a plotter. *)
#[global] Instance facade : GeometryFacade smesh := engine true.

Definition headless : GeometryFacade smesh := engine false.

(** An anatomical space named by a three-letter origin: the axis that runs
    anterior-posterior is "sagittal", superior-inferior "vertical",
    left-right "frontal". *)
Definition axis_of_letter (ch : Ascii.ascii) : string :=
  if bool_decide (ch ∈ ["a"; "p"]%char) then "sagittal"
  else if bool_decide (ch ∈ ["s"; "i"]%char) then "vertical"
  else "frontal".

Fixpoint index_of (axis : string) (origin : string) (i : Z) : Z :=
  match origin with
  | EmptyString => i
  | String ch rest =>
      if String.eqb (axis_of_letter ch) axis then i else index_of axis rest (i + 1)
  end.

#[global] Instance spaces : AnatomicalSpaces := {|
  AnatomicalSpace_of origin := {| get_axis_idx axis := index_of axis origin 0 |}
|}.

(** An atlas of 10000 x 8000 x 11400 micrometres; the left hemisphere is the
    half with the smaller third coordinate. *)
Definition inside (p : vec3) : bool :=
  (0 <=? vx p) && (vx p <? 10000) && (0 <=? vy p) && (vy p <? 8000)
  && (0 <=? vz p) && (vz p <? 11400).

Definition atlas : Atlas := {|
  hemisphere_from_coords p :=
    if inside p then Ok (if vz p <? 5700 then "left"%string else "right"%string)
    else Raise IndexError;
  mirror_point_across_hemispheres p := Ok (V3 (vx p) (vy p) (11400 - vz p));
  space := AnatomicalSpace_of "asr";
|}.

(** A tetrahedron and its coarser copy. *)
Definition tetra : smesh :=
  SMesh [V3 100 900 300; V3 500 200 400; V3 300 700 800; V3 200 200 100]
    (PStr "gold") (PInt 1) (PInt 1)
    [("npoints"%string, PInt 4);
     ("center_of_mass"%string, POpaque "tetra.center_of_mass")].

Definition tetra_coarse : smesh :=
  SMesh [V3 100 900 300; V3 500 200 400; V3 300 700 800]
    (PStr "gold") (PInt 1) (PInt 1)
    [("center_of_mass"%string, POpaque "tetra_coarse.center_of_mass")].

Definition plain (l : loc) : Actor :=
  mkActor l "root" "brain region" false
    None None None None None None None None None None.

(** The same actor once a scene has attached the secondary mesh, the label
    and the silhouette configuration. *)
Definition staged (l l2 : loc) : Actor :=
  mkActor l "root" "brain region" false
    (Some true) (Some true) None (Some true) None None (Some l2)
    (Some (PStr "root"))
    (Some {| kw_size := None; kw_color := None; kw_radius := Some (PInt 100);
             kw_xoffset := None; kw_yoffset := None; kw_zoffset := None |})
    (Some {| sk_lw := Some (PInt 2); sk_color := Some (PStr "black") |}).

(** A mesh far outside the atlas. *)
Definition tetra_far : smesh :=
  SMesh [V3 50000 900 300; V3 50500 200 400; V3 50300 700 800]
    (PStr "gray") (PInt 1) (PInt 1) [].

(** An atlas that answers a point outside its bounds with ValueError. *)
Definition strict_atlas : Atlas := {|
  hemisphere_from_coords p :=
    if inside p then Ok (if vz p <? 5700 then "left"%string else "right"%string)
    else Raise ValueError;
  mirror_point_across_hemispheres p := Ok (V3 (vx p) (vy p) (11400 - vz p));
  space := AnatomicalSpace_of "asr";
|}.

(** An atlas whose space gives every axis the index 7. *)
Definition odd_atlas : Atlas := {|
  hemisphere_from_coords p := Raise IndexError;
  mirror_point_across_hemispheres p := Ok p;
  space := {| get_axis_idx _ := 7 |};
|}.

(** An actor with a complete silhouette configuration and a label, but
    without secondary mesh; and one whose silhouette configuration lacks
    the colour. *)
Definition unstaged (l : loc) : Actor :=
  mkActor l "root" "brain region" false
    (Some true) (Some true) None None None None None
    (Some (PList [PStr "root"; PStr "spare"]))
    (Some {| kw_size := None; kw_color := Some (PStr "red"); kw_radius := Some PNone;
             kw_xoffset := Some (-1000); kw_yoffset := None; kw_zoffset := None |})
    (Some {| sk_lw := Some (PInt 2); sk_color := Some (PStr "black") |}).

Definition half_configured (l l2 : loc) : Actor :=
  mkActor l "root" "brain region" false
    None (Some true) None None None None (Some l2) None None
    (Some {| sk_lw := Some (PInt 2); sk_color := None |}).

(** An atlas that sees every point in the left hemisphere and cannot
    mirror any. *)
Definition brittle_atlas : Atlas := {|
  hemisphere_from_coords p := Ok "left"%string;
  mirror_point_across_hemispheres p := Raise IndexError;
  space := AnatomicalSpace_of "asr";
|}.

End Sample.

(** * Properties *)

(** ** numpy's argmin *)

Lemma argmin_from_spec (l pre : list Z) (bi : nat) (b : Z) :
  pre !! bi = Some b →
  (∀ w, w ∈ pre → b ≤ w) →
  (∀ j w, (j < bi)%nat → pre !! j = Some w → b < w) →
  ∃ v, (pre ++ l) !! argmin_from bi b (length pre) l = Some v
       ∧ (∀ w, w ∈ pre ++ l → v ≤ w)
       ∧ (∀ j w, (j < argmin_from bi b (length pre) l)%nat →
                 (pre ++ l) !! j = Some w → v < w).
Proof.
  revert pre bi b.
  induction l as [|x l IH]; intros pre bi b Hb Hmin Hfirst; simpl.
  - rewrite app_nil_r. eauto.
  - assert (Hlen : length (pre ++ [x]) = S (length pre))
      by (rewrite length_app; simpl; lia).
    assert (Hbi : (bi < length pre)%nat) by (eapply lookup_lt_Some; eauto).
    replace (pre ++ x :: l) with ((pre ++ [x]) ++ l)
      by (rewrite <- app_assoc; reflexivity).
    rewrite <- Hlen.
    destruct (Z.ltb_spec x b) as [Hlt | Hge].
    + apply IH.
      * rewrite lookup_app_r by lia. by rewrite Nat.sub_diag.
      * intros w Hw. apply elem_of_app in Hw as [Hw | Hw].
        -- specialize (Hmin w Hw). lia.
        -- apply list_elem_of_singleton in Hw. lia.
      * intros j w Hj Hw. rewrite lookup_app_l in Hw by lia.
        assert (w ∈ pre) by (eapply list_elem_of_lookup_2; eauto).
        specialize (Hmin w ltac:(assumption)). lia.
    + apply IH.
      * rewrite lookup_app_l by lia. done.
      * intros w Hw. apply elem_of_app in Hw as [Hw | Hw].
        -- by apply Hmin.
        -- apply list_elem_of_singleton in Hw. lia.
      * intros j w Hj Hw. rewrite lookup_app_l in Hw by lia. eauto.
Qed.

Lemma np_argmin_spec (l : list Z) :
  l ≠ [] →
  ∃ i v, np_argmin l = Ok i ∧ l !! i = Some v
         ∧ (∀ w, w ∈ l → v ≤ w)
         ∧ (∀ j w, (j < i)%nat → l !! j = Some w → v < w).
Proof.
  destruct l as [|x l]; [done | intros _].
  destruct (argmin_from_spec l [x] 0 x) as (v & Hv & Hmin & Hfirst).
  - done.
  - intros w Hw. apply list_elem_of_singleton in Hw. lia.
  - intros j w Hj. lia.
  - exists (argmin_from 0 x 1 l), v. simpl in *. eauto.
Qed.

Section Properties.
Context {Mesh : Type} `{GeometryFacade Mesh} `{AnatomicalSpaces}.

(** ** The store *)

Lemma bind_ok {S A B} (m : prog S A) (f : A → prog S B) s a s' :
  m s = (Ok a, s') → (m ≫= f) s = f a s'.
Proof. intros Hm. unfold mbind, prog_bind. by rewrite Hm. Qed.

Lemma bind_raise {S A B} (m : prog S A) (f : A → prog S B) s e s' :
  m s = (Raise e, s') → (m ≫= f) s = (Raise e, s').
Proof. intros Hm. unfold mbind, prog_bind. by rewrite Hm. Qed.

Lemma obj_get_ok {A} (σ : list Mesh) l m (g : Mesh → A) :
  σ !! l = Some m → obj_get l g σ = (Ok (g m), σ).
Proof. intros Hl. unfold obj_get. by rewrite Hl. Qed.

Lemma obj_call_ok (σ : list Mesh) l m f :
  σ !! l = Some m → obj_call l f σ = (Ok tt, <[l := f m]> σ).
Proof. intros Hl. unfold obj_call. by rewrite Hl. Qed.

Lemma obj_call_last (σ : list Mesh) m f :
  obj_call (length σ) f (σ ++ [m]) = (Ok tt, σ ++ [f m]).
Proof.
  unfold obj_call. rewrite list_lookup_middle by done.
  by rewrite insert_app_r_alt, Nat.sub_diag by lia.
Qed.

Lemma lookup_grown (σ extra : list Mesh) l m :
  σ !! l = Some m → (σ ++ extra) !! l = Some m.
Proof. apply lookup_app_l_Some. Qed.

(** ** One round of the label loop *)

Lemma pair_objects_grown atlas size radius offset (σ extra : list Mesh) color pair objs :
  pair_objects atlas size radius offset σ color pair objs →
  pair_objects atlas size radius offset (σ ++ extra) color pair objs.
Proof.
  intros (m & m2 & a & p & Hm & Hm2 & Ha & Hp & Hobjs).
  exists m, m2, a, p. eauto 10 using lookup_grown.
Qed.

Lemma label_body_spec atlas size radius offset color acc pair (σ : list Mesh) objs :
  pair_objects atlas size radius offset σ (color_or_default color) pair objs →
  label_body atlas size radius offset (color, acc) pair σ
  = (Ok (color_or_default color, acc ++ seq (length σ) (length objs)), σ ++ objs).
Proof.
  destruct pair as [actor label].
  intros (m & m2 & a & p & Hm & Hm2 & Ha & Hp & ->). simpl in *.
  unfold label_body.
  erewrite bind_ok by (by apply obj_get_ok).
  erewrite bind_ok by (unfold lift_result; by rewrite Ha).
  erewrite bind_ok by (unfold lift_result; by rewrite Hp).
  erewrite bind_ok by reflexivity.
  erewrite bind_ok by apply obj_call_last.
  erewrite bind_ok by apply obj_call_last.
  fold (text_obj label p size (color_or_default color)).
  set (txt := text_obj label p size (color_or_default color)).
  assert (Hsphere : ∀ radius',
    (pt ← obj_get (delegate actor "closest_point") (λ m, closest_point m p);
     let pt := negate_third pt in
     sphere ← new_obj (Sphere pt radius' (color_or_default color) 8);
     obj_call sphere (set_ancor pt);;
     let new_actors := (acc ++ [length σ]) ++ [sphere] in
     obj_call sphere compute_normals;;
     mret (color_or_default color, new_actors)) (σ ++ [txt])
    = (Ok (color_or_default color, acc ++ [length σ; S (length σ)]),
       σ ++ [txt; marker_obj (negate_third (closest_point m2 p)) radius'
                    (color_or_default color)])).
  { intros radius'.
    erewrite bind_ok by (apply obj_get_ok, lookup_grown, Hm2).
    erewrite bind_ok by reflexivity.
    erewrite bind_ok by apply obj_call_last.
    erewrite bind_ok by apply obj_call_last.
    unfold mret, prog_ret, marker_obj.
    rewrite length_app, <- !app_assoc. simpl.
    by rewrite Nat.add_1_r. }
  destruct radius; simpl; try apply Hsphere.
  reflexivity.
Qed.

Lemma color_or_default_idemp color :
  color_or_default (color_or_default color) = color_or_default color.
Proof. by destruct color. Qed.

Lemma label_point_spec (points : list vec3) (offset : vec3) :
  points ≠ [] →
  ∃ i v, points !! i = Some v
         ∧ (∀ w, w ∈ points → vy v ≤ vy w)
         ∧ (∀ j w, (j < i)%nat → points !! j = Some w → vy v < vy w)
         ∧ label_point points offset
           = Ok (negate_third (vadd v (vadd offset default_offset))).
Proof.
  intros Hne.
  destruct (np_argmin_spec (vy <$> points)) as (i & y & Hi & Hy & Hmin & Hfirst).
  { by destruct points. }
  rewrite list_lookup_fmap in Hy.
  destruct (points !! i) as [v|] eqn:Hv; [|done].
  injection Hy as <-.
  exists i, v. split_and!.
  - done.
  - intros w Hw. apply Hmin. apply list_elem_of_fmap. eauto.
  - intros j w Hj Hw. apply (Hfirst j); [done|].
    by rewrite list_lookup_fmap, Hw.
  - unfold label_point, np_row. by rewrite Hi, Hv.
Qed.

Lemma hemisphere_fix_total atlas a :
  only_index_errors atlas → ∃ p, hemisphere_fix atlas a = Ok p.
Proof.
  intros Honly. unfold hemisphere_fix.
  destruct (hemisphere_from_coords atlas a) as [h|e] eqn:Hh.
  - destruct (String.eqb h "left"); [|eauto].
    destruct (mirror_point_across_hemispheres atlas a) as [q|e] eqn:Hq; [eauto|].
    destruct (Honly a e) as [_ He]. rewrite (He Hq). eauto.
  - destruct (Honly a e) as [He _]. rewrite (He Hh). eauto.
Qed.

Lemma hemisphere_fix_miss atlas a :
  hemisphere_from_coords atlas a = Raise IndexError →
  hemisphere_fix atlas a = Ok a.
Proof. intros Hh. unfold hemisphere_fix. by rewrite Hh. Qed.

Lemma pair_objects_exists atlas size radius offset (σ : list Mesh) color actor label :
  only_index_errors atlas → has_geometry σ actor →
  ∃ objs, pair_objects atlas size radius offset σ color (actor, label) objs.
Proof.
  intros Honly (m & m2 & Hm & Hm2 & Hne).
  destruct (label_point_spec (vertices m) offset Hne) as (i & v & _ & _ & _ & Ha).
  destruct (hemisphere_fix_total atlas
              (negate_third (vadd v (vadd offset default_offset))) Honly)
    as [p Hp].
  eexists. exists m, m2. do 2 eexists. eauto 10.
Qed.

Lemma pairs_have_objects atlas size radius offset (σ : list Mesh) color
    (actors : list Actor) (labels : list pyval) :
  only_index_errors atlas → Forall (has_geometry σ) actors →
  Forall (λ pair, ∃ objs, pair_objects atlas size radius offset σ color pair objs)
         (zip actors labels).
Proof.
  intros Honly Hall. revert labels.
  induction Hall as [|actor actors Hactor _ IH]; intros [|label labels];
    simpl; try constructor.
  - by apply pair_objects_exists.
  - apply IH.
Qed.

(** ** The whole loop *)

Lemma label_loop_spec atlas size radius offset pairs :
  ∀ color acc (σ extra : list Mesh),
    Forall (λ pair, ∃ objs,
              pair_objects atlas size radius offset σ (color_or_default color) pair objs)
           pairs →
    ∃ chunks,
      Forall2 (pair_objects atlas size radius offset σ (color_or_default color))
              pairs chunks
      ∧ for_each (label_body atlas size radius offset) pairs (color, acc) (σ ++ extra)
        = (Ok (match pairs with [] => color | _ => color_or_default color end,
               acc ++ seq (length (σ ++ extra)) (length (concat chunks))),
           σ ++ extra ++ concat chunks).
Proof.
  induction pairs as [|pair pairs IH]; intros color acc σ extra Hall.
  - exists []. split; [constructor|]. simpl.
    by rewrite !app_nil_r.
  - apply Forall_cons in Hall as [[objs Hobjs] Hall].
    destruct (IH (color_or_default color) (acc ++ seq (length (σ ++ extra)) (length objs))
                 σ (extra ++ objs)) as (chunks & Hchunks & Hrun).
    { by rewrite color_or_default_idemp. }
    rewrite color_or_default_idemp in Hchunks.
    exists (objs :: chunks). split; [by constructor|].
    simpl for_each.
    erewrite bind_ok
      by (apply label_body_spec, pair_objects_grown, Hobjs).
    rewrite <- app_assoc, Hrun. simpl concat.
    rewrite color_or_default_idemp.
    f_equal; [f_equal; f_equal|].
    + by destruct pairs.
    + rewrite <- app_assoc. f_equal.
      rewrite (length_app objs), seq_app. f_equal. f_equal.
      rewrite !length_app. lia.
    + by rewrite <- !app_assoc.
Qed.

Lemma make_actor_label_spec atlas actors labels size color radius
    xoffset yoffset zoffset (σ : list Mesh) :
  only_index_errors atlas →
  Forall (has_geometry σ) (listify actors) →
  ∃ chunks,
    Forall2 (pair_objects atlas size radius (V3 (- yoffset) (- zoffset) xoffset) σ
               (color_or_default color))
            (zip (listify actors) (listify_val labels)) chunks
    ∧ make_actor_label atlas actors labels size color radius xoffset yoffset zoffset σ
      = (Ok (seq (length σ) (length (concat chunks))), σ ++ concat chunks).
Proof.
  intros Honly Hall.
  destruct (label_loop_spec atlas size radius (V3 (- yoffset) (- zoffset) xoffset)
              (zip (listify actors) (listify_val labels)) color [] σ [])
    as (chunks & Hchunks & Hrun).
  { by apply pairs_have_objects. }
  exists chunks. split; [done|].
  unfold make_actor_label.
  rewrite app_nil_r in Hrun.
  erewrite bind_ok by apply Hrun.
  reflexivity.
Qed.

(** ** Shape of the result *)

Lemma pair_objects_shape atlas size radius offset (σ : list Mesh) color pair objs :
  pair_objects atlas size radius offset σ color pair objs →
  length objs = objects_per_pair radius
  ∧ (∃ p, objs !! 0%nat = Some (text_obj pair.2 p size color))
  ∧ (radius ≠ PNone → ∃ pt, objs !! 1%nat = Some (marker_obj pt radius color)).
Proof.
  intros (m & m2 & a & p & _ & _ & _ & _ & ->).
  destruct radius; simpl; split_and!; eauto; done.
Qed.

Lemma chunks_length atlas size radius offset (σ : list Mesh) color pairs chunks :
  Forall2 (pair_objects atlas size radius offset σ color) pairs chunks →
  length (concat chunks) = (objects_per_pair radius * length pairs)%nat.
Proof.
  induction 1 as [|pair objs pairs chunks Hobjs _ IH]; simpl; [lia|].
  apply pair_objects_shape in Hobjs as (Hlen & _).
  rewrite length_app, IH, Hlen. lia.
Qed.

Lemma chunks_lookup atlas size radius offset (σ : list Mesh) color pairs chunks :
  Forall2 (pair_objects atlas size radius offset σ color) pairs chunks →
  ∀ k pair, pairs !! k = Some pair →
    (∃ p, concat chunks !! (objects_per_pair radius * k)%nat
          = Some (text_obj pair.2 p size color))
    ∧ (radius ≠ PNone →
       ∃ pt, concat chunks !! (objects_per_pair radius * k + 1)%nat
             = Some (marker_obj pt radius color)).
Proof.
  induction 1 as [|pair0 objs pairs chunks Hobjs _ IH]; intros k pair Hk;
    simpl in *; [done|].
  apply pair_objects_shape in Hobjs as (Hlen & [p Htxt] & Hmark).
  destruct k as [|k].
  - injection Hk as <-. rewrite Nat.mul_0_r. simpl. split.
    + exists p. by apply lookup_app_l_Some.
    + intros Hr. destruct (Hmark Hr) as [pt Hpt]. exists pt.
      by apply lookup_app_l_Some.
  - destruct (IH k pair Hk) as [Ht Hm].
    replace (objects_per_pair radius * S k)%nat
      with (length objs + objects_per_pair radius * k)%nat by lia.
    split.
    + rewrite lookup_app_r by lia.
      by replace (length objs + objects_per_pair radius * k - length objs)%nat
        with (objects_per_pair radius * k)%nat by lia.
    + intros Hr. rewrite lookup_app_r by lia.
      replace (length objs + objects_per_pair radius * k + 1 - length objs)%nat
        with (objects_per_pair radius * k + 1)%nat by lia.
      by apply Hm.
Qed.

Lemma chunks_colored atlas size radius offset (σ : list Mesh) color pairs chunks x :
  Forall2 (pair_objects atlas size radius offset σ color) pairs chunks →
  x ∈ concat chunks →
  (∃ label p, x = text_obj label p size color)
  ∨ (∃ pt, x = marker_obj pt radius color).
Proof.
  induction 1 as [|pair objs pairs chunks Hobjs _ IH]; simpl; intros Hx.
  - by apply elem_of_nil in Hx.
  - apply elem_of_app in Hx as [Hx | Hx]; [|by apply IH].
    destruct Hobjs as (m & m2 & a & p & _ & _ & _ & _ & ->).
    apply elem_of_cons in Hx as [-> | Hx]; [eauto|].
    destruct radius; try (by apply elem_of_nil in Hx);
      apply list_elem_of_singleton in Hx as ->; eauto.
Qed.

(** The objects of the result sit behind the store the call started from. *)
Lemma result_lookup (σ new : list Mesh) k x :
  new !! k = Some x →
  seq (length σ) (length new) !! k = Some (length σ + k)%nat
  ∧ (σ ++ new) !! (length σ + k)%nat = Some x.
Proof.
  intros Hk. split.
  - apply lookup_seq. split; [done|]. by eapply lookup_lt_Some.
  - rewrite lookup_app_r by lia.
    by replace (length σ + k - length σ)%nat with k by lia.
Qed.

Lemma result_elem (σ new : list Mesh) l :
  l ∈ seq (length σ) (length new) →
  ∃ x, x ∈ new ∧ (σ ++ new) !! l = Some x.
Proof.
  intros Hl. apply elem_of_seq in Hl as [Hlo Hhi].
  destruct (lookup_lt_is_Some_2 new (l - length σ)) as [x Hx]; [lia|].
  exists x. split; [by eapply list_elem_of_lookup_2|].
  by rewrite lookup_app_r by lia.
Qed.

Lemma elem_of_concat_intro {A} (x : A) (xs : list A) (xss : list (list A)) :
  x ∈ xs → xs ∈ xss → x ∈ concat xss.
Proof.
  intros Hx Hxs. induction Hxs as [xs xss | xs ys xss _ IH]; simpl;
    apply elem_of_app; eauto.
Qed.

(** ** The label synthesizer *)

(** C8.  For every (actor, label) pair whose mesh has a vertex, the anchor
    of the label is the first vertex with the least second coordinate,
    shifted by (-yoffset, -zoffset, xoffset) and by (0, -200, 100), with the
    third coordinate negated afterwards; the round of the loop builds the
    text from that point once the hemisphere correction has passed over
    it. *)
Theorem label_anchor_point atlas size radius color acc actor label
    xoffset yoffset zoffset (σ : list Mesh) m m2 :
  σ !! mesh actor = Some m →
  σ !! delegate actor "closest_point" = Some m2 →
  vertices m ≠ [] →
  ∃ i v anchor,
    vertices m !! i = Some v
    ∧ (∀ w, w ∈ vertices m → vy v ≤ vy w)
    ∧ (∀ j w, (j < i)%nat → vertices m !! j = Some w → vy v < vy w)
    ∧ anchor = V3 (vx v + - yoffset + 0) (vy v + - zoffset + -200)
                  (- (vz v + xoffset + 100))
    ∧ label_point (vertices m) (V3 (- yoffset) (- zoffset) xoffset) = Ok anchor
    ∧ ∀ p, hemisphere_fix atlas anchor = Ok p →
        ∃ rest,
          label_body atlas size radius (V3 (- yoffset) (- zoffset) xoffset)
            (color, acc) (actor, label) σ
          = (Ok (color_or_default color, acc ++ seq (length σ) (S (length rest))),
             σ ++ text_obj label p size (color_or_default color) :: rest).
Proof.
  intros Hm Hm2 Hne.
  destruct (label_point_spec (vertices m) (V3 (- yoffset) (- zoffset) xoffset) Hne)
    as (i & v & Hv & Hmin & Hfirst & Ha).
  assert (Hanchor : label_point (vertices m) (V3 (- yoffset) (- zoffset) xoffset)
                    = Ok (V3 (vx v + - yoffset + 0) (vy v + - zoffset + -200)
                             (- (vz v + xoffset + 100)))).
  { rewrite Ha. unfold negate_third, vadd, default_offset. simpl.
    do 2 f_equal; lia. }
  exists i, v. eexists.
  split_and!; [done | done | done | reflexivity | exact Hanchor |].
  clear Ha. revert Hanchor.
  generalize (V3 (vx v + - yoffset + 0) (vy v + - zoffset + -200)
                 (- (vz v + xoffset + 100))).
  intros anchor Hanchor p Hp.
  eexists.
  apply (label_body_spec atlas size radius _ color acc (actor, label) σ
             (text_obj label p size (color_or_default color) :: _)).
  exists m, m2, anchor, p. split_and!; [done | done | done | done | reflexivity].
Qed.

(** C1 (amended).  For a batch of N (actor, label) pairs the synthesizer
    returns N texts when the radius is None and, for every other radius,
    zero included, 2N objects that alternate text and marker: the text of
    the k-th label, then a marker of the given radius. *)
Theorem make_actor_label_count atlas actors labels size color radius
    xoffset yoffset zoffset (σ : list Mesh) :
  only_index_errors atlas →
  Forall (has_geometry σ) (listify actors) →
  ∃ ls σ',
    make_actor_label atlas actors labels size color radius xoffset yoffset zoffset σ
    = (Ok ls, σ')
    ∧ let pairs := zip (listify actors) (listify_val labels) in
      let c := color_or_default color in
      match radius with
      | PNone =>
          length ls = length pairs
          ∧ ∀ k actor label, pairs !! k = Some (actor, label) →
              text_at σ' ls k label size c
      | _ =>
          length ls = (2 * length pairs)%nat
          ∧ ∀ k actor label, pairs !! k = Some (actor, label) →
              text_at σ' ls (2 * k) label size c
              ∧ marker_at σ' ls (2 * k + 1) radius c
      end.
Proof.
  intros Honly Hall.
  destruct (make_actor_label_spec atlas actors labels size color radius
              xoffset yoffset zoffset σ Honly Hall) as (chunks & Hchunks & Hrun).
  do 2 eexists. split; [exact Hrun|].
  pose proof (chunks_length _ _ _ _ _ _ _ _ Hchunks) as Hlen.
  pose proof (chunks_lookup _ _ _ _ _ _ _ _ Hchunks) as Hlook.
  cbv zeta.
  assert (Htext : ∀ k actor label,
            zip (listify actors) (listify_val labels) !! k = Some (actor, label) →
            text_at (σ ++ concat chunks) (seq (length σ) (length (concat chunks)))
                    (objects_per_pair radius * k) label size (color_or_default color)).
  { intros k actor label Hk. destruct (Hlook k _ Hk) as [(p & Hx) _].
    destruct (result_lookup σ _ _ _ Hx) as [Hl Hobj].
    eexists _, p. eauto. }
  assert (Hmark : radius ≠ PNone →
            ∀ k actor label,
            zip (listify actors) (listify_val labels) !! k = Some (actor, label) →
            marker_at (σ ++ concat chunks) (seq (length σ) (length (concat chunks)))
                      (objects_per_pair radius * k + 1) radius (color_or_default color)).
  { intros Hr k actor label Hk. destruct (Hlook k _ Hk) as [_ Hm].
    destruct (Hm Hr) as [pt Hx].
    destruct (result_lookup σ _ _ _ Hx) as [Hl Hobj].
    eexists _, pt. eauto. }
  assert (Hcount : length (seq (length σ) (length (concat chunks)))
                   = (objects_per_pair radius
                      * length (zip (listify actors) (listify_val labels)))%nat)
    by (by rewrite length_seq).
  clear Hlen Hlook.
  destruct radius; unfold objects_per_pair in Htext, Hmark, Hcount;
    try (split; [exact Hcount | intros k actor label Hk; split;
                                  [by eapply Htext | by eapply Hmark]]).
  split; [by rewrite Nat.mul_1_l in Hcount|]. intros k actor label Hk.
  specialize (Htext k actor label Hk). by rewrite Nat.mul_1_l in Htext.
Qed.

(** C3.  In one call whose colour was left at None, the first round
    assigns the grey [0.2, 0.2, 0.2] to the loop variable; the rounds after
    it start with that value, not with None, and leave it in place.  Every
    pair of the batch, the first and the later ones, gets its text (and its
    marker, for a radius) in that grey. *)
Theorem default_color_is_sticky atlas actors labels size radius
    xoffset yoffset zoffset (σ : list Mesh) pair pairs :
  only_index_errors atlas →
  Forall (has_geometry σ) (listify actors) →
  zip (listify actors) (listify_val labels) = pair :: pairs →
  let body := label_body atlas size radius (V3 (- yoffset) (- zoffset) xoffset) in
  let grey := PList [PFloat (1 # 5); PFloat (1 # 5); PFloat (1 # 5)] in
  ∃ ls1 σ1 ls σ',
    body (PNone, []) pair σ = (Ok (grey, ls1), σ1)
    ∧ length ls1 = objects_per_pair radius
    ∧ for_each body pairs (grey, ls1) σ1 = (Ok (grey, ls), σ')
    ∧ make_actor_label atlas actors labels size PNone radius xoffset yoffset zoffset σ
      = (Ok ls, σ')
    ∧ length ls = (objects_per_pair radius * S (length pairs))%nat
    ∧ (∀ k actor label,
         (pair :: pairs) !! k = Some (actor, label) →
         text_at σ' ls (objects_per_pair radius * k) label size grey
         ∧ (radius ≠ PNone →
            marker_at σ' ls (objects_per_pair radius * k + 1) radius grey))
    ∧ ∀ l, l ∈ ls → colored σ' grey l.
Proof.
  intros Honly Hall Hzip body grey.
  pose proof (pairs_have_objects atlas size radius
                (V3 (- yoffset) (- zoffset) xoffset) σ grey
                (listify actors) (listify_val labels) Honly Hall) as Hobjs.
  rewrite Hzip in Hobjs. apply Forall_cons in Hobjs as [[objs Hobjs] Hrest].
  pose proof (label_body_spec atlas size radius _ PNone [] pair σ objs Hobjs) as Hfirst.
  destruct (label_loop_spec atlas size radius (V3 (- yoffset) (- zoffset) xoffset)
              pairs grey (seq (length σ) (length objs)) σ objs Hrest)
    as (chunks & Hchunks & Hrun).
  change (color_or_default PNone) with grey in Hfirst.
  change (color_or_default grey) with grey in Hchunks, Hrun.
  simpl app in Hfirst.
  assert (Hsame : match pairs with [] => grey | _ :: _ => grey end = grey)
    by (by destruct pairs).
  rewrite Hsame in Hrun. clear Hsame.
  assert (Hall2 : Forall2 (pair_objects atlas size radius
                             (V3 (- yoffset) (- zoffset) xoffset) σ grey)
                          (pair :: pairs) (objs :: chunks)) by (by constructor).
  rewrite (length_app σ objs), <- seq_app, <- length_app in Hrun.
  change (objs ++ concat chunks) with (concat (objs :: chunks)) in Hrun.
  exists (seq (length σ) (length objs)), (σ ++ objs),
         (seq (length σ) (length (concat (objs :: chunks)))),
         (σ ++ concat (objs :: chunks)).
  split_and!.
  - exact Hfirst.
  - rewrite length_seq. by eapply pair_objects_shape.
  - exact Hrun.
  - unfold make_actor_label. rewrite Hzip. simpl for_each.
    erewrite bind_ok by (erewrite bind_ok by exact Hfirst; exact Hrun).
    reflexivity.
  - rewrite length_seq. by rewrite (chunks_length _ _ _ _ _ _ _ _ Hall2).
  - intros k actor label Hk.
    destruct (chunks_lookup _ _ _ _ _ _ _ _ Hall2 k _ Hk) as [[p Hx] Hm].
    split.
    + destruct (result_lookup σ _ _ _ Hx) as [Hl Hobj]. eexists _, p. eauto.
    + intros Hr. destruct (Hm Hr) as [pt Hy].
      destruct (result_lookup σ _ _ _ Hy) as [Hl Hobj]. eexists _, pt. eauto.
  - intros l Hl.
    destruct (result_elem σ _ l Hl) as (x & Hx & Hlx).
    destruct (chunks_colored _ _ _ _ _ _ _ _ x Hall2 Hx)
      as [(label & p & ->) | (pt & ->)]; [left | right]; eauto.
Qed.

(** C4.  When the atlas raises IndexError for the anchor of a pair, the
    call still returns, and the text of that pair is built from the anchor
    as it was, without hemisphere correction. *)
Theorem hemisphere_miss_is_swallowed atlas actors labels size color radius
    xoffset yoffset zoffset (σ : list Mesh) actor label m a :
  only_index_errors atlas →
  Forall (has_geometry σ) (listify actors) →
  (actor, label) ∈ zip (listify actors) (listify_val labels) →
  σ !! mesh actor = Some m →
  label_point (vertices m) (V3 (- yoffset) (- zoffset) xoffset) = Ok a →
  hemisphere_from_coords atlas a = Raise IndexError →
  ∃ ls σ' l,
    make_actor_label atlas actors labels size color radius xoffset yoffset zoffset σ
    = (Ok ls, σ')
    ∧ l ∈ ls
    ∧ σ' !! l = Some (text_obj label a size (color_or_default color)).
Proof.
  intros Honly Hall Hpair Hm Ha Hmiss.
  destruct (make_actor_label_spec atlas actors labels size color radius
              xoffset yoffset zoffset σ Honly Hall) as (chunks & Hchunks & Hrun).
  apply list_elem_of_lookup_1 in Hpair as [i Hi].
  destruct (Forall2_lookup_l _ _ _ _ _ Hchunks Hi) as (objs & Hobjs & Hpo).
  destruct Hpo as (m' & m2 & a' & p & Hm' & _ & Ha' & Hp & Heq).
  simpl in Hm', Ha', Heq.
  rewrite Hm in Hm'. injection Hm' as <-.
  rewrite Ha in Ha'. injection Ha' as <-.
  rewrite (hemisphere_fix_miss atlas a Hmiss) in Hp. injection Hp as <-.
  assert (Hin : text_obj label a size (color_or_default color) ∈ concat chunks).
  { eapply elem_of_concat_intro; [|by eapply list_elem_of_lookup_2].
    rewrite Heq. by left. }
  apply list_elem_of_lookup_1 in Hin as [k Hk].
  destruct (result_lookup σ _ _ _ Hk) as [Hl Hobj].
  do 3 eexists. split_and!; [exact Hrun | | exact Hobj].
  by eapply list_elem_of_lookup_2.
Qed.

(** ** Attribute delegation *)

Lemma py_getattr_found (σ : list Mesh) l m attr v :
  σ !! l = Some m → mesh_attr m attr = Some v →
  py_getattr l attr σ = (Ok v, σ).
Proof.
  intros Hl Hv. unfold py_getattr.
  erewrite bind_ok by (by apply obj_get_ok). by rewrite Hv.
Qed.

Lemma py_getattr_missing (σ : list Mesh) l m attr :
  σ !! l = Some m → mesh_attr m attr = None →
  py_getattr l attr σ = (Raise AttributeError, σ).
Proof.
  intros Hl Hv. unfold py_getattr.
  erewrite bind_ok by (by apply obj_get_ok). by rewrite Hv.
Qed.

Lemma guarded_getattr (σ : list Mesh) l attr :
  (b ← py_hasattr l attr;
   if b : bool then py_getattr l attr else raise AttributeError) σ
  = py_getattr l attr σ.
Proof.
  unfold py_hasattr, py_getattr, obj_get, mbind, prog_bind.
  destruct (σ !! l) as [m|] eqn:Hl; [|done].
  destruct (mesh_attr m attr) eqn:Hv; [|done]. cbv beta. by rewrite Hl, Hv.
Qed.

Lemma Actor_getattr_delegate self attr (σ : list Mesh) :
  __getattr__ self attr σ = py_getattr (delegate self attr) attr σ.
Proof.
  unfold __getattr__, delegate.
  destruct (bool_decide (attr ∈ mesh_attributes)).
  - apply guarded_getattr.
  - destruct (own__mesh self); simpl; [done|]. apply guarded_getattr.
Qed.

(** C6 (amended).  An attribute that Python does not find on the Actor is
    answered by one engine object: the primary mesh for [center_of_mass],
    otherwise the secondary [_mesh] when the actor has one and the primary
    mesh when it has none.  The answer is that object's attribute, and
    AttributeError when that object lacks it. *)
Theorem getattr_delegation self attr (σ : list Mesh) target :
  σ !! delegate self attr = Some target →
  delegate self "center_of_mass" = mesh self
  ∧ (attr ≠ "center_of_mass"%string →
     delegate self attr = default (mesh self) (own__mesh self))
  ∧ __getattr__ self attr σ = py_getattr (delegate self attr) attr σ
  ∧ (∀ v, mesh_attr target attr = Some v → __getattr__ self attr σ = (Ok v, σ))
  ∧ (mesh_attr target attr = None →
     __getattr__ self attr σ = (Raise AttributeError, σ)).
Proof.
  intros Htarget. split_and!.
  - reflexivity.
  - intros Hne. unfold delegate, mesh_attributes.
    rewrite bool_decide_eq_false_2; [done|].
    intros Hin. apply list_elem_of_singleton in Hin. done.
  - apply Actor_getattr_delegate.
  - intros v Hv. rewrite Actor_getattr_delegate.
    by eapply py_getattr_found.
  - intros Hv. rewrite Actor_getattr_delegate.
    by eapply py_getattr_missing.
Qed.

(** ** Methods of the Actor *)

Lemma with_self_ok {A} (f : Actor → prog (list Mesh) A) self σ a σ' :
  f self σ = (Ok a, σ') → with_self f (self, σ) = (Ok a, (self, σ')).
Proof. intros Hf. unfold with_self. simpl. by rewrite Hf. Qed.

Lemma with_self_raise {A} (f : Actor → prog (list Mesh) A) self σ e σ' :
  f self σ = (Raise e, σ') → with_self f (self, σ) = (Raise e, (self, σ')).
Proof. intros Hf. unfold with_self. simpl. by rewrite Hf. Qed.

Lemma set_mesh_same self : set_mesh (mesh self) self = self.
Proof. by destruct self. Qed.

Lemma str_or_suffix s suffix dflt :
  suffix ≠ ""%string → str_or (Some (s +:+ suffix)) dflt = s +:+ suffix.
Proof.
  intros Hne. unfold str_or.
  destruct s; simpl; [|done].
  destruct suffix; [done|]. reflexivity.
Qed.

Lemma Actor_init_plain (σ : list Mesh) l name br_class is_text :
  __init__ l name br_class is_text PNone PNone σ
  = (Ok (mkActor l (str_or name "Actor") (str_or br_class "None") is_text
           None None None None None None None None None None), σ).
Proof. reflexivity. Qed.

Lemma Actor_init_truthy (σ : list Mesh) l m name br_class is_text color alpha :
  σ !! l = Some m → truthy color = true → truthy alpha = true →
  __init__ l name br_class is_text color alpha σ
  = (Ok (mkActor l (str_or name "Actor") (str_or br_class "None") is_text
           None None None None None None None None None None),
     <[l := mesh_alpha alpha (mesh_c color m)]> σ).
Proof.
  intros Hl Hcolor Halpha. unfold __init__. rewrite Hcolor, Halpha.
  erewrite bind_ok by (by apply obj_call_ok).
  erewrite bind_ok.
  2:{ apply obj_call_ok, list_lookup_insert_eq. by eapply lookup_lt_Some. }
  by rewrite list_insert_insert_eq.
Qed.

Lemma Actor_init_falsy_alpha (σ : list Mesh) l m name br_class is_text color alpha :
  σ !! l = Some m → truthy color = true → truthy alpha = false →
  __init__ l name br_class is_text color alpha σ
  = (Ok (mkActor l (str_or name "Actor") (str_or br_class "None") is_text
           None None None None None None None None None None),
     <[l := mesh_c color m]> σ).
Proof.
  intros Hl Hcolor Halpha. unfold __init__. rewrite Hcolor, Halpha.
  erewrite bind_ok by (by apply obj_call_ok).
  reflexivity.
Qed.

Lemma mirror_run axis origin atlas self (σ : list Mesh) m :
  σ !! mesh self = Some m →
  mirror axis origin atlas (self, σ)
  = (Ok tt, (self, <[mesh self := mesh_mirror (resolve_axis axis atlas) origin m]> σ)).
Proof.
  intros Hm. unfold mirror. cbv zeta.
  erewrite bind_ok.
  2:{ apply with_self_ok. erewrite bind_ok by (by apply obj_call_ok). reflexivity. }
  unfold assign_self. simpl. by rewrite set_mesh_same.
Qed.

(** C2.  A synonym is resolved through the atlas's space when an atlas is
    given and through AnatomicalSpace("asr") otherwise; index 0 becomes
    "x", 1 "y" and 2 "z", and the mesh is mirrored about that axis.  When
    the "asr" space puts "sagittal" at index 0, mirror("sagittal") without
    atlas does what mirror("x") does. *)
Theorem mirror_resolves_synonyms axis origin atlas self (σ : list Mesh) m :
  σ !! mesh self = Some m →
  axis ∈ ["sagittal"; "vertical"; "frontal"]%string →
  let anatomical_space :=
    match atlas with
    | Some a => space a
    | None => AnatomicalSpace_of "asr"
    end in
  mirror axis origin atlas (self, σ)
  = (Ok tt, (self, <[mesh self :=
                       mesh_mirror (axis_letter (get_axis_idx anatomical_space axis))
                                   origin m]> σ))
  ∧ axis_letter 0 = "x"%string
  ∧ axis_letter 1 = "y"%string
  ∧ axis_letter 2 = "z"%string
  ∧ (get_axis_idx (AnatomicalSpace_of "asr") "sagittal" = 0 →
     mirror "sagittal" origin None (self, σ) = mirror "x" origin None (self, σ)).
Proof.
  intros Hm Haxis sp. split_and!; try reflexivity.
  - rewrite (mirror_run _ _ _ _ _ m Hm). unfold resolve_axis.
    by rewrite bool_decide_eq_true_2.
  - intros Hidx. rewrite !(mirror_run _ _ _ _ _ m Hm).
    unfold resolve_axis. simpl. by rewrite Hidx.
Qed.

(** C5.  [center] is the centre of mass of the mesh as the store holds it
    at the time of the call: it depends on nothing else the actor carries,
    it follows every in-place change of the mesh, and after [mirror] it is
    the centre of mass of the mirrored mesh. *)
Theorem center_follows_mesh self (σ : list Mesh) m :
  σ !! mesh self = Some m →
  center self σ = (Ok (center_of_mass m), σ)
  ∧ (∀ other, mesh other = mesh self → center other σ = center self σ)
  ∧ (∀ f : Mesh → Mesh,
       center self (<[mesh self := f m]> σ)
       = (Ok (center_of_mass (f m)), <[mesh self := f m]> σ))
  ∧ (∀ axis origin atlas,
       ∃ σ', mirror axis origin atlas (self, σ) = (Ok tt, (self, σ'))
             ∧ center self σ'
               = (Ok (center_of_mass (mesh_mirror (resolve_axis axis atlas) origin m)),
                  σ')).
Proof.
  intros Hm.
  assert (Hafter : ∀ f : Mesh → Mesh,
            center self (<[mesh self := f m]> σ)
            = (Ok (center_of_mass (f m)), <[mesh self := f m]> σ)).
  { intros f. apply obj_get_ok, list_lookup_insert_eq.
    by eapply lookup_lt_Some. }
  split_and!.
  - by apply obj_get_ok.
  - intros other Hother. unfold center. by rewrite Hother.
  - exact Hafter.
  - intros axis origin atlas. eexists. split; [by apply mirror_run|].
    apply Hafter.
Qed.

(** C7 (amended).  On an actor that carries its silhouette configuration
    with "lw" and "color" and a secondary mesh, [make_silhouette] returns
    one new Actor that is marked as transformed, has class "silhouette" and
    the parent's name followed by " silhouette"; the parent's
    needs-silhouette flag is cleared and the new actor is stored as its
    silhouette.  The new actor wraps a new outline object when the engine
    has a plotter camera, and the secondary mesh itself, restyled in place,
    when it has none. *)
Theorem make_silhouette_result self (σ : list Mesh) kw lw color m2 src :
  own_silhouette_kwargs self = Some kw →
  sk_lw kw = Some lw →
  sk_color kw = Some color →
  own__mesh self = Some m2 →
  σ !! m2 = Some src →
  ∃ sil self' σ',
    make_silhouette (self, σ) = (Ok sil, (self', σ'))
    ∧ sil = mkActor (if plotter_has_camera then length σ else m2)
              (name self +:+ " silhouette") "silhouette" false
              None None (Some true) None None None None None None None
    ∧ σ' = (if plotter_has_camera
            then σ ++ [mesh_c color (mesh_lw lw (mesh_silhouette src))]
            else <[m2 := mesh_c color (mesh_lw lw src)]> σ)
    ∧ _is_transformed sil = true
    ∧ br_class sil = "silhouette"%string
    ∧ name sil = name self +:+ " silhouette"
    ∧ self' = set_silhouette (Some sil) (set_needs_silhouette false self)
    ∧ _needs_silhouette self' = false
    ∧ silhouette self' = Some sil.
Proof.
  intros Hkw Hlw Hcolor Hm2 Hsrc.
  assert (Hget : get_silhouette_kwargs self σ = (Ok kw, σ))
    by (unfold get_silhouette_kwargs; by rewrite Hkw).
  assert (Hhead :
      make_silhouette (self, σ)
      = (sil ← with_self (λ self,
                  make_actor (if plotter_has_camera then length σ else m2)
                    (name self +:+ " silhouette") "silhouette");
         let sil := set_is_transformed true sil in
         assign_self (set_needs_silhouette false);;
         assign_self (set_silhouette (Some sil));;
         mret sil)
          (self, if plotter_has_camera
                 then σ ++ [mesh_c color (mesh_lw lw (mesh_silhouette src))]
                 else <[m2 := mesh_c color (mesh_lw lw src)]> σ)).
  { unfold make_silhouette.
    erewrite bind_ok by apply with_self_ok, Hget.
    rewrite Hlw. erewrite bind_ok by reflexivity.
    erewrite bind_ok by apply with_self_ok, Hget.
    rewrite Hcolor. erewrite bind_ok by reflexivity.
    erewrite bind_ok
      by (apply with_self_ok; unfold get__mesh; rewrite Hm2; reflexivity).
    destruct plotter_has_camera.
    - erewrite bind_ok; [reflexivity|].
      apply with_self_ok.
      erewrite bind_ok.
      2:{ erewrite bind_ok by (by apply obj_get_ok). reflexivity. }
      erewrite bind_ok by apply obj_call_last.
      erewrite bind_ok by apply obj_call_last.
      reflexivity.
    - erewrite bind_ok; [reflexivity|].
      apply with_self_ok.
      erewrite bind_ok by reflexivity.
      erewrite bind_ok by (by apply obj_call_ok).
      erewrite bind_ok.
      2:{ apply obj_call_ok, list_lookup_insert_eq. by eapply lookup_lt_Some. }
      by rewrite list_insert_insert_eq. }
  do 3 eexists. split_and!; [|reflexivity..].
  rewrite Hhead.
  erewrite bind_ok.
  2:{ apply with_self_ok. unfold make_actor. apply Actor_init_plain. }
  rewrite str_or_suffix by done.
  reflexivity.
Qed.

Lemma late_attr_delegate self attr :
  attr ≠ "center_of_mass"%string →
  delegate self attr = default (mesh self) (own__mesh self).
Proof.
  intros Hne. unfold delegate, mesh_attributes.
  rewrite bool_decide_eq_false_2; [done|].
  intros Hin. by apply list_elem_of_singleton in Hin.
Qed.

Lemma get_label_str_outcome self (σ : list Mesh) target :
  σ !! default (mesh self) (own__mesh self) = Some target →
  (∃ v, get_label_str self σ = (Ok v, σ))
  ∨ get_label_str self σ = (Raise AttributeError, σ).
Proof.
  intros Htarget. unfold get_label_str.
  destruct (own_label_str self) as [v|]; [left; by exists v|].
  rewrite Actor_getattr_delegate, late_attr_delegate by done.
  destruct (mesh_attr target "_label_str") as [v|] eqn:Hv.
  - left. exists v. by eapply py_getattr_found.
  - right. by eapply py_getattr_missing.
Qed.

(** C10.  On an actor to which no label text or no label configuration was
    attached (and whose mesh carries no attribute of that name either),
    [make_label] raises AttributeError and leaves the actor, with its
    needs-label flag and its labels, and the store as they were. *)
Theorem make_label_without_label atlas self (σ : list Mesh) target :
  σ !! default (mesh self) (own__mesh self) = Some target →
  (own_label_str self = None ∧ mesh_attr target "_label_str" = None)
  ∨ (own_label_kwargs self = None ∧ mesh_attr target "_label_kwargs" = None) →
  make_label atlas (self, σ) = (Raise AttributeError, (self, σ)).
Proof.
  intros Htarget Hmissing. unfold make_label.
  assert (Hkwargs : own_label_kwargs self = None →
                    mesh_attr target "_label_kwargs" = None →
                    get_label_kwargs self σ = (Raise AttributeError, σ)).
  { intros Hown Hattr. unfold get_label_kwargs. rewrite Hown.
    apply bind_raise.
    rewrite Actor_getattr_delegate, late_attr_delegate by done.
    by eapply py_getattr_missing. }
  destruct Hmissing as [[Hown Hattr] | [Hown Hattr]].
  - apply bind_raise, with_self_raise.
    unfold get_label_str. rewrite Hown.
    rewrite Actor_getattr_delegate, late_attr_delegate by done.
    by eapply py_getattr_missing.
  - destruct (get_label_str_outcome self σ target Htarget) as [[v Hv] | Hraise].
    + erewrite bind_ok by apply with_self_ok, Hv.
      apply bind_raise, with_self_raise. by apply Hkwargs.
    + by apply bind_raise, with_self_raise.
Qed.

End Properties.

(** * The code on concrete inputs *)

Import Sample.

Lemma sample_atlas_only_index_errors : only_index_errors atlas.
Proof.
  intros p e. unfold atlas. simpl.
  destruct (inside p); split; intros Heq; congruence.
Qed.

(** [Actor(mesh, name="hippocampus", color="red", alpha=0.5)] sets both
    attributes on the mesh the caller passed. *)
Example Actor_init_runs :
  ∃ self m,
    __init__ 0%nat (Some "hippocampus"%string) None false
      (PStr "red") (PFloat (1 # 2)) [tetra]
    = (Ok self, [m])
    ∧ name self = "hippocampus"%string
    ∧ br_class self = "None"%string
    ∧ sm_color m = PStr "red"
    ∧ sm_alpha m = PFloat (1 # 2).
Proof. do 2 eexists. split_and!; reflexivity. Qed.

(** [make_label] on an actor that carries its label: two label actors, the
    flag cleared, the labels stored. *)
Example make_label_runs :
  ∃ txt sphere self' σ',
    make_label atlas (staged 0%nat 1%nat, [tetra; tetra_coarse])
    = (Ok [txt; sphere], (self', σ'))
    ∧ mesh txt = 2%nat ∧ mesh sphere = 3%nat
    ∧ br_class txt = "label"%string ∧ name sphere = "root"%string
    ∧ _needs_label (staged 0%nat 1%nat) = true
    ∧ _needs_label self' = false
    ∧ labels self' = [txt; sphere]
    ∧ length σ' = 4%nat.
Proof. do 4 eexists. split_and!; reflexivity. Qed.

(** C9.  [Actor(mesh, name="hippocampus", color="red", alpha=0)]: the
    colour is applied to the mesh in place, the opacity is not, because
    line 121 tests [alpha] for truth; the mesh keeps the opacity it had.
    The same happens for the float 0.0. *)
Theorem Actor_init_drops_zero_alpha :
  ∃ self m,
    __init__ 0%nat (Some "hippocampus"%string) None false (PStr "red") (PInt 0) [tetra]
    = (Ok self, [m])
    ∧ __init__ 0%nat (Some "hippocampus"%string) None false (PStr "red") (PFloat 0) [tetra]
      = (Ok self, [m])
    ∧ mesh self = 0%nat
    ∧ sm_color m = PStr "red"
    ∧ sm_alpha m = sm_alpha tetra
    ∧ sm_alpha m ≠ PInt 0
    ∧ sm_alpha m ≠ PFloat 0.
Proof. do 2 eexists. split_and!; try reflexivity; simpl; discriminate. Qed.

(** C1, counterexample to "radius=0 on one actor returns a sequence of
    length 1": the call returns two objects, the text and a marker of
    radius 0. *)
Lemma make_actor_label_radius_zero :
  (∃ σ', make_actor_label atlas (One (plain 0%nat)) (PStr "root")
           (PInt 300) PNone (PInt 0) 0 (-500) 0 [tetra]
         = (Ok [1; 2]%nat, σ')
         ∧ marker_at σ' [1; 2]%nat 1 (PInt 0) default_color
         ∧ (λ m, mesh_attr m "r") <$> σ' !! 2%nat = Some (Some (PInt 0)))
  ∧ ¬ (∃ ls σ', make_actor_label atlas (One (plain 0%nat)) (PStr "root")
                  (PInt 300) PNone (PInt 0) 0 (-500) 0 [tetra]
                = (Ok ls, σ')
                ∧ length ls = 1%nat).
Proof.
  split.
  - eexists. split_and!; [reflexivity | | reflexivity].
    eexists 2%nat, _. split; reflexivity.
  - intros (ls & σ' & Hrun & Hlen).
    vm_compute in Hrun. injection Hrun as <- _. discriminate.
Qed.

(** C6, counterexample: the actor has a secondary mesh, yet
    [center_of_mass] is answered by the primary mesh and differs from what
    the secondary mesh would answer; and [npoints], which the primary mesh
    has, raises because the secondary mesh lacks it. *)
Lemma getattr_not_always_from_secondary :
  own__mesh (staged 0%nat 1%nat) = Some 1%nat
  ∧ py_getattr 1%nat "center_of_mass" [tetra; tetra_coarse]
    = (Ok (POpaque "tetra_coarse.center_of_mass"), [tetra; tetra_coarse])
  ∧ __getattr__ (staged 0%nat 1%nat) "center_of_mass" [tetra; tetra_coarse]
    = (Ok (POpaque "tetra.center_of_mass"), [tetra; tetra_coarse])
  ∧ __getattr__ (staged 0%nat 1%nat) "center_of_mass" [tetra; tetra_coarse]
    ≠ py_getattr 1%nat "center_of_mass" [tetra; tetra_coarse]
  ∧ py_getattr 0%nat "npoints" [tetra; tetra_coarse]
    = (Ok (PInt 4), [tetra; tetra_coarse])
  ∧ __getattr__ (staged 0%nat 1%nat) "npoints" [tetra; tetra_coarse]
    = (Raise AttributeError, [tetra; tetra_coarse]).
Proof. split_and!; try reflexivity. vm_compute. discriminate. Qed.

(** C7, counterexample to "for every actor": an actor that has just been
    constructed has neither a silhouette configuration nor a secondary
    mesh, and [make_silhouette] raises AttributeError on it; with the
    configuration in place but no secondary mesh it raises as well.  No
    actor is returned and nothing is changed. *)
Lemma make_silhouette_on_new_actor :
  ∃ self,
    __init__ 0%nat (Some "hippocampus"%string) None false PNone PNone [tetra]
    = (Ok self, [tetra])
    ∧ make_silhouette (self, [tetra]) = (Raise AttributeError, (self, [tetra]))
    ∧ make_silhouette (unstaged 0%nat, [tetra])
      = (Raise AttributeError, (unstaged 0%nat, [tetra]))
    ∧ ¬ (∃ sil st, make_silhouette (self, [tetra]) = (Ok sil, st)).
Proof.
  eexists. split_and!; [reflexivity | reflexivity | reflexivity |].
  intros (sil & st & Hrun). vm_compute in Hrun. discriminate.
Qed.

Lemma sample_has_geometry :
  Forall (has_geometry [tetra; tetra_coarse]) [plain 0%nat; staged 0%nat 1%nat].
Proof.
  constructor; [|constructor; [|constructor]].
  - exists tetra, tetra. split_and!; [reflexivity | reflexivity | discriminate].
  - exists tetra, tetra_coarse. split_and!; [reflexivity | reflexivity | discriminate].
Qed.

Lemma label_anchor_point_witness :
  ∃ v, v ∈ vertices tetra
       ∧ label_point (vertices tetra) (V3 (- -500) (- 0) 0)
         = Ok (V3 (vx v + - -500 + 0) (vy v + - 0 + -200) (- (vz v + 0 + 100))).
Proof.
  destruct (label_anchor_point atlas (PInt 300) (PInt 100) PNone [] (plain 0%nat)
              (PStr "root") 0 (-500) 0 [tetra] tetra tetra)
    as (i & v & anchor & Hv & _ & _ & -> & Ha & _);
    [reflexivity | reflexivity | discriminate |].
  exists v. split; [by eapply list_elem_of_lookup_2 | exact Ha].
Defined.

Lemma make_actor_label_count_witness :
  ∃ ls σ',
    make_actor_label atlas (Many [plain 0%nat; staged 0%nat 1%nat])
      (PList [PStr "root"; PStr "TH"]) (PInt 300) PNone (PInt 100) 0 (-500) 0
      [tetra; tetra_coarse]
    = (Ok ls, σ')
    ∧ length ls = 4%nat
    ∧ text_at σ' ls 2 (PStr "TH") (PInt 300) default_color
    ∧ marker_at σ' ls 3 (PInt 100) default_color.
Proof.
  destruct (make_actor_label_count atlas (Many [plain 0%nat; staged 0%nat 1%nat])
              (PList [PStr "root"; PStr "TH"]) (PInt 300) PNone (PInt 100) 0 (-500) 0
              [tetra; tetra_coarse] sample_atlas_only_index_errors sample_has_geometry)
    as (ls & σ' & Hrun & Hlen & Halt).
  exists ls, σ'. split_and!; [exact Hrun | exact Hlen | |].
  - apply (Halt 1%nat (staged 0%nat 1%nat) (PStr "TH") eq_refl).
  - apply (Halt 1%nat (staged 0%nat 1%nat) (PStr "TH") eq_refl).
Defined.

Lemma mirror_resolves_synonyms_witness :
  mirror "sagittal" None None (plain 0%nat, [tetra])
  = mirror "x" None None (plain 0%nat, [tetra]).
Proof.
  destruct (mirror_resolves_synonyms "sagittal" None None (plain 0%nat) [tetra] tetra)
    as (_ & _ & _ & _ & Hsame); [reflexivity | by left |].
  apply Hsame. reflexivity.
Defined.

Lemma default_color_is_sticky_witness :
  ∃ ls σ',
    make_actor_label atlas (Many [plain 0%nat; staged 0%nat 1%nat])
      (PList [PStr "root"; PStr "TH"]) (PInt 300) PNone (PInt 100) 0 (-500) 0
      [tetra; tetra_coarse]
    = (Ok ls, σ')
    ∧ length ls = 4%nat
    ∧ text_at σ' ls 0 (PStr "root") (PInt 300)
        (PList [PFloat (1 # 5); PFloat (1 # 5); PFloat (1 # 5)])
    ∧ text_at σ' ls 2 (PStr "TH") (PInt 300)
        (PList [PFloat (1 # 5); PFloat (1 # 5); PFloat (1 # 5)])
    ∧ marker_at σ' ls 3 (PInt 100)
        (PList [PFloat (1 # 5); PFloat (1 # 5); PFloat (1 # 5)])
    ∧ ∀ l, l ∈ ls →
        colored σ' (PList [PFloat (1 # 5); PFloat (1 # 5); PFloat (1 # 5)]) l.
Proof.
  destruct (default_color_is_sticky atlas (Many [plain 0%nat; staged 0%nat 1%nat])
              (PList [PStr "root"; PStr "TH"]) (PInt 300) (PInt 100) 0 (-500) 0
              [tetra; tetra_coarse] (plain 0%nat, PStr "root")
              [(staged 0%nat 1%nat, PStr "TH")]
              sample_atlas_only_index_errors sample_has_geometry eq_refl)
    as (ls1 & σ1 & ls & σ' & _ & _ & _ & Hrun & Hlen & Htie & Hcol).
  exists ls, σ'. split_and!; [exact Hrun | exact Hlen | | | | exact Hcol].
  - apply (Htie 0%nat (plain 0%nat) (PStr "root") eq_refl).
  - apply (Htie 1%nat (staged 0%nat 1%nat) (PStr "TH") eq_refl).
  - apply (Htie 1%nat (staged 0%nat 1%nat) (PStr "TH") eq_refl). discriminate.
Defined.

Lemma hemisphere_miss_is_swallowed_witness :
  ∃ ls σ' l,
    make_actor_label atlas (Many [plain 0%nat; staged 0%nat 1%nat])
      (PList [PStr "root"; PStr "TH"]) (PInt 300) PNone (PInt 100) 0 (-500) 0
      [tetra; tetra_coarse]
    = (Ok ls, σ')
    ∧ l ∈ ls
    ∧ σ' !! l = Some (text_obj (PStr "root") (V3 1000 0 (-500)) (PInt 300) default_color).
Proof.
  apply (hemisphere_miss_is_swallowed atlas (Many [plain 0%nat; staged 0%nat 1%nat])
           (PList [PStr "root"; PStr "TH"]) (PInt 300) PNone (PInt 100) 0 (-500) 0
           [tetra; tetra_coarse] (plain 0%nat) (PStr "root") tetra (V3 1000 0 (-500))
           sample_atlas_only_index_errors sample_has_geometry).
  - by left.
  - reflexivity.
  - reflexivity.
  - reflexivity.
Defined.

Lemma center_follows_mesh_witness :
  center (plain 0%nat) [tetra] = (Ok (V3 275 500 400), [tetra])
  ∧ ∃ σ', mirror "x" None None (plain 0%nat, [tetra]) = (Ok tt, (plain 0%nat, σ'))
          ∧ center (plain 0%nat) σ' = (Ok (V3 (-275) 500 400), σ').
Proof.
  destruct (center_follows_mesh (plain 0%nat) [tetra] tetra eq_refl)
    as (Hnow & _ & _ & Hmirror).
  split; [exact Hnow|].
  destruct (Hmirror "x"%string None None) as (σ' & Hrun & Hcenter).
  exists σ'. split; [exact Hrun | exact Hcenter].
Defined.

Lemma getattr_delegation_witness :
  __getattr__ (staged 0%nat 1%nat) "npoints" [tetra; tetra_coarse]
  = (Raise AttributeError, [tetra; tetra_coarse])
  ∧ __getattr__ (plain 0%nat) "npoints" [tetra; tetra_coarse]
    = (Ok (PInt 4), [tetra; tetra_coarse]).
Proof.
  split.
  - destruct (getattr_delegation (staged 0%nat 1%nat) "npoints" [tetra; tetra_coarse]
                tetra_coarse eq_refl) as (_ & _ & _ & _ & Hmissing).
    apply Hmissing. reflexivity.
  - destruct (getattr_delegation (plain 0%nat) "npoints" [tetra; tetra_coarse]
                tetra eq_refl) as (_ & _ & _ & Hfound & _).
    apply Hfound. reflexivity.
Defined.

Lemma make_silhouette_result_witness :
  (∃ sil self' σ',
     make_silhouette (staged 0%nat 1%nat, [tetra; tetra_coarse]) = (Ok sil, (self', σ'))
     ∧ mesh sil = 2%nat
     ∧ σ' = [tetra; tetra_coarse;
             SMesh (sm_vertices tetra_coarse) (PStr "black") (PInt 1) (PInt 2) []]
     ∧ _is_transformed sil = true
     ∧ br_class sil = "silhouette"%string
     ∧ name sil = "root silhouette"%string
     ∧ _needs_silhouette self' = false
     ∧ silhouette self' = Some sil)
  ∧ (∃ sil self' σ',
       make_silhouette (H:=headless) (staged 0%nat 1%nat, [tetra; tetra_coarse])
       = (Ok sil, (self', σ'))
       ∧ mesh sil = 1%nat
       ∧ σ' = [tetra;
               SMesh (sm_vertices tetra_coarse) (PStr "black") (PInt 1) (PInt 2)
                 (sm_attrs tetra_coarse)]
       ∧ _is_transformed sil = true
       ∧ br_class sil = "silhouette"%string
       ∧ name sil = "root silhouette"%string
       ∧ _needs_silhouette self' = false
       ∧ silhouette self' = Some sil).
Proof.
  split.
  - destruct (make_silhouette_result (H:=facade) (staged 0%nat 1%nat)
                [tetra; tetra_coarse]
                {| sk_lw := Some (PInt 2); sk_color := Some (PStr "black") |}
                (PInt 2) (PStr "black") 1%nat tetra_coarse
                eq_refl eq_refl eq_refl eq_refl eq_refl)
      as (sil & self' & σ' & Hrun & Hsil & Hσ & Htr & Hcls & Hname & Hself
          & Hneeds & Hstored).
    exists sil, self', σ'.
    split_and!; [exact Hrun | | exact Hσ | exact Htr | exact Hcls | | exact Hneeds
                 | exact Hstored].
    + rewrite Hsil. reflexivity.
    + rewrite Hname. reflexivity.
  - destruct (make_silhouette_result (H:=headless) (staged 0%nat 1%nat)
                [tetra; tetra_coarse]
                {| sk_lw := Some (PInt 2); sk_color := Some (PStr "black") |}
                (PInt 2) (PStr "black") 1%nat tetra_coarse
                eq_refl eq_refl eq_refl eq_refl eq_refl)
      as (sil & self' & σ' & Hrun & Hsil & Hσ & Htr & Hcls & Hname & Hself
          & Hneeds & Hstored).
    exists sil, self', σ'.
    split_and!; [exact Hrun | | exact Hσ | exact Htr | exact Hcls | | exact Hneeds
                 | exact Hstored].
    + rewrite Hsil. reflexivity.
    + rewrite Hname. reflexivity.
Defined.

Lemma make_label_without_label_witness :
  make_label atlas (plain 0%nat, [tetra]) = (Raise AttributeError, (plain 0%nat, [tetra])).
Proof.
  apply (make_label_without_label atlas (plain 0%nat) [tetra] tetra eq_refl).
  left. split; reflexivity.
Defined.

(** * Further properties of the module *)

Section MoreProperties.
Context {Mesh : Type} `{GeometryFacade Mesh} `{AnatomicalSpaces}.

(** ** What a round and the loop do to the store, whatever the outcome *)

Lemma label_body_outcome atlas size radius offset color acc pair (σ : list Mesh) :
  ∃ new,
    (label_body atlas size radius offset (color, acc) pair σ).2 = σ ++ new
    ∧ ∀ vars,
        (label_body atlas size radius offset (color, acc) pair σ).1 = Ok vars →
        vars = (color_or_default color, acc ++ seq (length σ) (length new)).
Proof.
  destruct pair as [actor label]. unfold label_body.
  destruct (σ !! mesh actor) as [m|] eqn:Hm.
  2:{ exists []. erewrite bind_raise by (unfold obj_get; by rewrite Hm).
      rewrite app_nil_r. split; [done | intros vars Hv; discriminate]. }
  erewrite bind_ok by (by apply obj_get_ok).
  destruct (label_point (vertices m) offset) as [a|e] eqn:Ha.
  2:{ exists []. erewrite bind_raise by reflexivity.
      rewrite app_nil_r. split; [done | intros vars Hv; discriminate]. }
  erewrite bind_ok by reflexivity.
  destruct (hemisphere_fix atlas a) as [p|e] eqn:Hp.
  2:{ exists []. erewrite bind_raise by reflexivity.
      rewrite app_nil_r. split; [done | intros vars Hv; discriminate]. }
  erewrite bind_ok by reflexivity.
  erewrite bind_ok by reflexivity.
  erewrite bind_ok by apply obj_call_last.
  erewrite bind_ok by apply obj_call_last.
  fold (text_obj label p size (color_or_default color)).
  set (txt := text_obj label p size (color_or_default color)).
  assert (Hsphere : ∀ radius',
    ∃ new,
      ((pt ← obj_get (delegate actor "closest_point") (λ m, closest_point m p);
        let pt := negate_third pt in
        sphere ← new_obj (Sphere pt radius' (color_or_default color) 8);
        obj_call sphere (set_ancor pt);;
        let new_actors := (acc ++ [length σ]) ++ [sphere] in
        obj_call sphere compute_normals;;
        mret (color_or_default color, new_actors)) (σ ++ [txt])).2 = σ ++ new
      ∧ ∀ vars,
          ((pt ← obj_get (delegate actor "closest_point") (λ m, closest_point m p);
            let pt := negate_third pt in
            sphere ← new_obj (Sphere pt radius' (color_or_default color) 8);
            obj_call sphere (set_ancor pt);;
            let new_actors := (acc ++ [length σ]) ++ [sphere] in
            obj_call sphere compute_normals;;
            mret (color_or_default color, new_actors)) (σ ++ [txt])).1 = Ok vars →
          vars = (color_or_default color, acc ++ seq (length σ) (length new))).
  { intros radius'.
    destruct ((σ ++ [txt]) !! delegate actor "closest_point") as [m2|] eqn:Hm2.
    2:{ exists [txt]. erewrite bind_raise by (unfold obj_get; by rewrite Hm2).
        split; [done | intros vars Hv; discriminate]. }
    erewrite bind_ok by (by apply obj_get_ok).
    erewrite bind_ok by reflexivity.
    erewrite bind_ok by apply obj_call_last.
    erewrite bind_ok by apply obj_call_last.
    eexists [txt; _]. unfold mret, prog_ret. simpl. split.
    - by rewrite <- app_assoc.
    - intros vars Hv. injection Hv as <-.
      by rewrite length_app, <- app_assoc, Nat.add_1_r. }
  destruct radius; try apply Hsphere.
  exists [txt]. split; [done|]. intros vars Hv. by injection Hv as <-.
Qed.

Lemma label_loop_outcome atlas size radius offset pairs :
  ∀ color acc (σ : list Mesh),
    ∃ new,
      (for_each (label_body atlas size radius offset) pairs (color, acc) σ).2
      = σ ++ new
      ∧ ∀ vars,
          (for_each (label_body atlas size radius offset) pairs (color, acc) σ).1
          = Ok vars →
          vars.2 = acc ++ seq (length σ) (length new).
Proof.
  induction pairs as [|pair pairs IH]; intros color acc σ.
  - exists []. simpl. rewrite !app_nil_r. split; [done|].
    intros vars Hv. by injection Hv as <-.
  - destruct (label_body_outcome atlas size radius offset color acc pair σ)
      as (new1 & Hstore & Hvars).
    simpl for_each.
    destruct (label_body atlas size radius offset (color, acc) pair σ)
      as [[vars1|e] σ1] eqn:Hbody; simpl in Hstore, Hvars; subst σ1.
    + rewrite (Hvars vars1 eq_refl) in Hbody. clear Hvars.
      erewrite bind_ok by exact Hbody.
      destruct (IH (color_or_default color) (acc ++ seq (length σ) (length new1))
                   (σ ++ new1)) as (new2 & Hstore2 & Hvars2).
      exists (new1 ++ new2). split.
      * by rewrite Hstore2, <- app_assoc.
      * intros vars Hv. rewrite (Hvars2 vars Hv).
        rewrite <- app_assoc. f_equal.
        rewrite (length_app new1), seq_app. f_equal. f_equal.
        apply length_app.
    + erewrite bind_raise by exact Hbody.
      exists new1. split; [done | intros vars Hv; discriminate].
Qed.

Lemma for_each_cons {S A B} (body : B → A → prog S B) x (xs : list A) (acc : B) :
  for_each body (x :: xs) acc = (acc' ← body acc x; for_each body xs acc').
Proof. reflexivity. Qed.


Lemma label_body_raises atlas size radius offset color acc actor label
    (σ : list Mesh) m e :
  σ !! mesh actor = Some m →
  label_point (vertices m) offset = Raise e
  ∨ (∃ a, label_point (vertices m) offset = Ok a ∧ hemisphere_fix atlas a = Raise e) →
  label_body atlas size radius offset (color, acc) (actor, label) σ = (Raise e, σ).
Proof.
  intros Hm Hfail. unfold label_body.
  erewrite bind_ok by (by apply obj_get_ok).
  destruct Hfail as [Ha | (a & Ha & Hp)].
  - apply bind_raise. unfold lift_result. by rewrite Ha.
  - erewrite bind_ok by (unfold lift_result; by rewrite Ha).
    apply bind_raise. unfold lift_result. by rewrite Hp.
Qed.


(** Every pair of a batch that goes through has its objects in the result. *)
Lemma batch_pair_objects atlas actors labels size color radius xoffset yoffset zoffset
    (σ : list Mesh) pair :
  only_index_errors atlas →
  Forall (has_geometry σ) (listify actors) →
  pair ∈ zip (listify actors) (listify_val labels) →
  ∃ ls σ' objs,
    make_actor_label atlas actors labels size color radius xoffset yoffset zoffset σ
    = (Ok ls, σ')
    ∧ pair_objects atlas size radius (V3 (- yoffset) (- zoffset) xoffset) σ
        (color_or_default color) pair objs
    ∧ ∀ x, x ∈ objs → ∃ l, l ∈ ls ∧ σ' !! l = Some x.
Proof.
  intros Honly Hall Hpair.
  destruct (make_actor_label_spec atlas actors labels size color radius
              xoffset yoffset zoffset σ Honly Hall) as (chunks & Hchunks & Hrun).
  apply list_elem_of_lookup_1 in Hpair as [i Hi].
  destruct (Forall2_lookup_l _ _ _ _ _ Hchunks Hi) as (objs & Hobjs & Hpo).
  exists (seq (length σ) (length (concat chunks))), (σ ++ concat chunks), objs.
  split_and!; [exact Hrun | exact Hpo |].
  intros x Hx.
  assert (Hin : x ∈ concat chunks).
  { eapply elem_of_concat_intro; [exact Hx | by eapply list_elem_of_lookup_2]. }
  apply list_elem_of_lookup_1 in Hin as [k Hk].
  destruct (result_lookup σ _ _ _ Hk) as [Hl Hobj].
  eexists. split; [by eapply list_elem_of_lookup_2 | exact Hobj].
Qed.

(** ** The label synthesizer: edges, errors and frame *)

(** X1.  Actors without a label and labels without an actor are passed
    over: the call on two lists is the call on their common prefix. *)
Theorem make_actor_label_ignores_surplus atlas actors labels size color radius
    xoffset yoffset zoffset :
  make_actor_label (Mesh:=Mesh) atlas (Many actors) (PList labels) size color radius
    xoffset yoffset zoffset
  = make_actor_label atlas
      (Many (take (length actors `min` length labels) actors))
      (PList (take (length actors `min` length labels) labels))
      size color radius xoffset yoffset zoffset.
Proof.
  unfold make_actor_label. simpl listify. simpl listify_val.
  by rewrite zip_with_take_both' by lia.
Qed.

(** X2.  With no actor or no label the call returns the empty list and
    leaves the store alone; the atlas is not asked. *)
Theorem make_actor_label_empty_batch atlas actors labels size color radius
    xoffset yoffset zoffset (σ : list Mesh) :
  listify actors = [] ∨ listify_val labels = [] →
  make_actor_label atlas actors labels size color radius xoffset yoffset zoffset σ
  = (Ok [], σ).
Proof.
  intros Hempty. unfold make_actor_label.
  assert (Hzip : zip (listify actors) (listify_val labels) = []).
  { destruct Hempty as [-> | ->]; [done | apply zip_with_nil_r]. }
  by rewrite Hzip.
Qed.

(** X3.  Whatever the outcome, the call only adds objects behind the ones
    the store held: no existing engine object is changed or removed.  When
    it returns, the result is the list of the added locations in the order
    of their creation. *)
Theorem make_actor_label_store_grows atlas actors labels size color radius
    xoffset yoffset zoffset (σ : list Mesh) :
  ∃ new,
    (make_actor_label atlas actors labels size color radius
       xoffset yoffset zoffset σ).2 = σ ++ new
    ∧ ∀ ls,
        (make_actor_label atlas actors labels size color radius
           xoffset yoffset zoffset σ).1 = Ok ls →
        ls = seq (length σ) (length new).
Proof.
  destruct (label_loop_outcome atlas size radius (V3 (- yoffset) (- zoffset) xoffset)
              (zip (listify actors) (listify_val labels)) color [] σ)
    as (new & Hstore & Hvars).
  exists new. unfold make_actor_label.
  destruct (for_each _ _ _ σ) as [[vars|e] σ'] eqn:Hrun; simpl in Hstore, Hvars.
  - erewrite bind_ok by exact Hrun. simpl. split; [done|].
    intros ls Hls. injection Hls as <-. by apply Hvars.
  - erewrite bind_raise by exact Hrun. simpl. split; [done | discriminate].
Qed.


(** X5.  An exception of the hemisphere lookup other than IndexError is
    not caught: it leaves the call, and no object has been made for that
    pair. *)
Theorem hemisphere_error_propagates atlas actors labels size color radius
    xoffset yoffset zoffset (σ : list Mesh) actor label rest m a e :
  zip (listify actors) (listify_val labels) = (actor, label) :: rest →
  σ !! mesh actor = Some m →
  label_point (vertices m) (V3 (- yoffset) (- zoffset) xoffset) = Ok a →
  hemisphere_from_coords atlas a = Raise e →
  e ≠ IndexError →
  make_actor_label atlas actors labels size color radius xoffset yoffset zoffset σ
  = (Raise e, σ).
Proof.
  intros Hzip Hm Ha Hh He.
  unfold make_actor_label. rewrite Hzip, for_each_cons.
  apply bind_raise, bind_raise.
  eapply label_body_raises; [exact Hm|]. right. exists a. split; [exact Ha|].
  unfold hemisphere_fix. rewrite Hh. by destruct e.
Qed.

Lemma pair_objects_inv atlas size radius offset (σ : list Mesh) color actor label
    objs m m2 a p :
  pair_objects atlas size radius offset σ color (actor, label) objs →
  σ !! mesh actor = Some m →
  σ !! delegate actor "closest_point" = Some m2 →
  label_point (vertices m) offset = Ok a →
  hemisphere_fix atlas a = Ok p →
  objs = text_obj label p size color ::
         match radius with
         | PNone => []
         | _ => [marker_obj (negate_third (closest_point m2 p)) radius color]
         end.
Proof.
  intros (m' & m2' & a' & p' & Hm' & Hm2' & Ha' & Hp' & ->) Hm Hm2 Ha Hp.
  simpl in *.
  rewrite Hm in Hm'. injection Hm' as <-.
  rewrite Hm2 in Hm2'. injection Hm2' as <-.
  rewrite Ha in Ha'. injection Ha' as <-.
  rewrite Hp in Hp'. by injection Hp' as <-.
Qed.

(** The text of a pair sits at the point the hemisphere step leaves. *)
Lemma batch_text atlas actors labels size color radius xoffset yoffset zoffset
    (σ : list Mesh) actor label m a p :
  only_index_errors atlas →
  Forall (has_geometry σ) (listify actors) →
  (actor, label) ∈ zip (listify actors) (listify_val labels) →
  σ !! mesh actor = Some m →
  label_point (vertices m) (V3 (- yoffset) (- zoffset) xoffset) = Ok a →
  hemisphere_fix atlas a = Ok p →
  ∃ ls σ' l,
    make_actor_label atlas actors labels size color radius xoffset yoffset zoffset σ
    = (Ok ls, σ')
    ∧ l ∈ ls
    ∧ σ' !! l = Some (text_obj label p size (color_or_default color)).
Proof.
  intros Honly Hall Hpair Hm Ha Hp.
  destruct (batch_pair_objects atlas actors labels size color radius
              xoffset yoffset zoffset σ _ Honly Hall Hpair)
    as (ls & σ' & objs & Hrun & Hpo & Hin).
  assert (Hgeo : has_geometry σ actor).
  { eapply Forall_forall; [exact Hall|]. by eapply elem_of_zip_l. }
  destruct Hgeo as (m' & m2 & _ & Hm2 & _).
  rewrite (pair_objects_inv _ _ _ _ _ _ _ _ _ _ _ _ _ Hpo Hm Hm2 Ha Hp) in Hin.
  destruct (Hin (text_obj label p size (color_or_default color))) as (l & Hl & Hobj);
    [by left|].
  by exists ls, σ', l.
Qed.

(** X6.  When the atlas places the anchor in the left hemisphere, the text
    is built from the anchor mirrored across the hemispheres; for every
    other answer of the atlas it is built from the anchor itself. *)
Theorem left_hemisphere_is_mirrored atlas actors labels size color radius
    xoffset yoffset zoffset (σ : list Mesh) actor label m a h q :
  only_index_errors atlas →
  Forall (has_geometry σ) (listify actors) →
  (actor, label) ∈ zip (listify actors) (listify_val labels) →
  σ !! mesh actor = Some m →
  label_point (vertices m) (V3 (- yoffset) (- zoffset) xoffset) = Ok a →
  hemisphere_from_coords atlas a = Ok h →
  mirror_point_across_hemispheres atlas a = Ok q →
  ∃ ls σ' l,
    make_actor_label atlas actors labels size color radius xoffset yoffset zoffset σ
    = (Ok ls, σ')
    ∧ l ∈ ls
    ∧ σ' !! l = Some (text_obj label (if String.eqb h "left" then q else a) size
                        (color_or_default color)).
Proof.
  intros Honly Hall Hpair Hm Ha Hh Hq.
  eapply batch_text; eauto.
  unfold hemisphere_fix. rewrite Hh.
  destruct (String.eqb h "left"); [by rewrite Hq | done].
Qed.

(** X7.  When the anchor is in the left hemisphere and mirroring it raises
    IndexError, that error is swallowed as well and the text is built from
    the anchor as it was. *)
Theorem mirror_miss_is_swallowed atlas actors labels size color radius
    xoffset yoffset zoffset (σ : list Mesh) actor label m a :
  only_index_errors atlas →
  Forall (has_geometry σ) (listify actors) →
  (actor, label) ∈ zip (listify actors) (listify_val labels) →
  σ !! mesh actor = Some m →
  label_point (vertices m) (V3 (- yoffset) (- zoffset) xoffset) = Ok a →
  hemisphere_from_coords atlas a = Ok "left"%string →
  mirror_point_across_hemispheres atlas a = Raise IndexError →
  ∃ ls σ' l,
    make_actor_label atlas actors labels size color radius xoffset yoffset zoffset σ
    = (Ok ls, σ')
    ∧ l ∈ ls
    ∧ σ' !! l = Some (text_obj label a size (color_or_default color)).
Proof.
  intros Honly Hall Hpair Hm Ha Hh Hq.
  eapply batch_text; eauto.
  unfold hemisphere_fix. by rewrite Hh, Hq.
Qed.


(** X9.  The marker of a pair is put at the point of the actor's mesh that
    is closest to the corrected anchor, with the third coordinate negated.
    The closest point is asked of the secondary mesh when the actor has
    one, although the anchor came from the vertices of the primary mesh. *)
Theorem marker_sits_on_delegate atlas actors labels size color radius
    xoffset yoffset zoffset (σ : list Mesh) actor label m m2 a p :
  radius ≠ PNone →
  only_index_errors atlas →
  Forall (has_geometry σ) (listify actors) →
  (actor, label) ∈ zip (listify actors) (listify_val labels) →
  σ !! mesh actor = Some m →
  σ !! default (mesh actor) (own__mesh actor) = Some m2 →
  label_point (vertices m) (V3 (- yoffset) (- zoffset) xoffset) = Ok a →
  hemisphere_fix atlas a = Ok p →
  ∃ ls σ' l,
    make_actor_label atlas actors labels size color radius xoffset yoffset zoffset σ
    = (Ok ls, σ')
    ∧ l ∈ ls
    ∧ σ' !! l = Some (marker_obj (negate_third (closest_point m2 p)) radius
                        (color_or_default color)).
Proof.
  intros Hradius Honly Hall Hpair Hm Hm2 Ha Hp.
  destruct (batch_pair_objects atlas actors labels size color radius
              xoffset yoffset zoffset σ _ Honly Hall Hpair)
    as (ls & σ' & objs & Hrun & Hpo & Hin).
  rewrite (pair_objects_inv _ _ _ _ _ _ _ _ _ _ _ _ _ Hpo Hm Hm2 Ha Hp) in Hin.
  destruct (Hin (marker_obj (negate_third (closest_point m2 p)) radius
                   (color_or_default color))) as (l & Hl & Hobj).
  { right. destruct radius; try done; by left. }
  by exists ls, σ', l.
Qed.

(** ** make_label *)

Lemma comprehension_make_actor (σ : list Mesh) nm cls ls :
  comprehension (λ label, make_actor label nm cls) ls σ
  = (Ok ((λ l, mkActor l (str_or (Some nm) "Actor") (str_or (Some cls) "None") false
                 None None None None None None None None None None) <$> ls), σ).
Proof.
  induction ls as [|l ls IH]; simpl; [done|].
  erewrite bind_ok by (unfold make_actor; apply Actor_init_plain).
  erewrite bind_ok by exact IH.
  reflexivity.
Qed.

(** X10.  When the synthesizer returns, [make_label] wraps each returned
    object, in order, in a new Actor of class "label" that bears the
    parent's name (and is not flagged as text, the Text3D included),
    clears the parent's needs-label flag and replaces the parent's labels
    by the new list.  Wrapping changes no engine object. *)
Theorem make_label_wraps_synthesizer atlas self (σ : list Mesh) v kw ls σ' :
  own_label_str self = Some v →
  own_label_kwargs self = Some kw →
  make_actor_label_kw atlas (One self) v kw σ = (Ok ls, σ') →
  let lbls :=
    (λ l, mkActor l (str_or (Some (name self)) "Actor") "label" false
            None None None None None None None None None None) <$> ls in
  make_label atlas (self, σ)
  = (Ok lbls, (set_labels lbls (set_needs_label false self), σ'))
  ∧ labels (set_labels lbls (set_needs_label false self)) = lbls
  ∧ _needs_label (set_labels lbls (set_needs_label false self)) = false.
Proof.
  intros Hstr Hkw Hrun lbls. split_and!; [|reflexivity..].
  unfold make_label.
  erewrite bind_ok
    by (apply with_self_ok; unfold get_label_str; rewrite Hstr; reflexivity).
  erewrite bind_ok
    by (apply with_self_ok; unfold get_label_kwargs; rewrite Hkw; reflexivity).
  erewrite bind_ok by (apply with_self_ok; exact Hrun).
  erewrite bind_ok by reflexivity.
  erewrite bind_ok by (apply with_self_ok; apply comprehension_make_actor).
  reflexivity.
Qed.

(** X11.  When the synthesizer raises, [make_label] raises the same
    exception before it touches the actor: the needs-label flag and the
    labels are as before, while the store is the one the synthesizer
    left. *)
Theorem make_label_passes_error_on atlas self (σ : list Mesh) v kw e σ' :
  own_label_str self = Some v →
  own_label_kwargs self = Some kw →
  make_actor_label_kw atlas (One self) v kw σ = (Raise e, σ') →
  make_label atlas (self, σ) = (Raise e, (self, σ')).
Proof.
  intros Hstr Hkw Hrun. unfold make_label.
  erewrite bind_ok
    by (apply with_self_ok; unfold get_label_str; rewrite Hstr; reflexivity).
  erewrite bind_ok
    by (apply with_self_ok; unfold get_label_kwargs; rewrite Hkw; reflexivity).
  apply bind_raise, with_self_raise, Hrun.
Qed.

(** ** make_silhouette: what it needs *)

(** X12.  A silhouette configuration without "lw" or without "color"
    makes [make_silhouette] raise KeyError; the actor and the store are
    untouched. *)
Theorem make_silhouette_missing_key self (σ : list Mesh) kw :
  own_silhouette_kwargs self = Some kw →
  sk_lw kw = None ∨ sk_color kw = None →
  make_silhouette (self, σ) = (Raise KeyError, (self, σ)).
Proof.
  intros Hkw Hkey. unfold make_silhouette.
  assert (Hget : get_silhouette_kwargs self σ = (Ok kw, σ))
    by (unfold get_silhouette_kwargs; by rewrite Hkw).
  erewrite bind_ok by apply with_self_ok, Hget.
  destruct (sk_lw kw) as [lw|] eqn:Hlw.
  - destruct Hkey as [? | Hcolor]; [done|].
    erewrite bind_ok by reflexivity.
    erewrite bind_ok by apply with_self_ok, Hget.
    rewrite Hcolor. by apply bind_raise.
  - by apply bind_raise.
Qed.


(** X14.  Without a silhouette configuration on the actor (and none on the
    mesh that answers for it) [make_silhouette] raises AttributeError and
    changes nothing. *)
Theorem make_silhouette_without_config self (σ : list Mesh) target :
  own_silhouette_kwargs self = None →
  σ !! default (mesh self) (own__mesh self) = Some target →
  mesh_attr target "_silhouette_kwargs" = None →
  make_silhouette (self, σ) = (Raise AttributeError, (self, σ)).
Proof.
  intros Hnone Htarget Hattr. unfold make_silhouette.
  apply bind_raise, with_self_raise.
  unfold get_silhouette_kwargs. rewrite Hnone.
  apply bind_raise.
  rewrite Actor_getattr_delegate, late_attr_delegate by done.
  by eapply py_getattr_missing.
Qed.

(** ** mirror *)

(** X15.  An axis that is none of the three synonyms is handed to the
    mesh as it is, whether the engine knows it or not; the atlas plays no
    part and the call does not fail on the axis name. *)
Theorem mirror_literal_axis axis origin atlas self (σ : list Mesh) m :
  axis ∉ ["sagittal"; "vertical"; "frontal"]%string →
  σ !! mesh self = Some m →
  mirror axis origin atlas (self, σ)
  = (Ok tt, (self, <[mesh self := mesh_mirror axis origin m]> σ)).
Proof.
  intros Haxis Hm. rewrite (mirror_run _ _ _ _ _ m Hm).
  unfold resolve_axis. by rewrite bool_decide_eq_false_2.
Qed.

(** X16.  For a synonym the anatomical space answers with an index; every
    index other than 0 and 1, not only 2, selects the axis "z". *)
Theorem mirror_other_index_is_z axis origin atlas self (σ : list Mesh) m :
  axis ∈ ["sagittal"; "vertical"; "frontal"]%string →
  σ !! mesh self = Some m →
  let anatomical_space :=
    match atlas with
    | Some a => space a
    | None => AnatomicalSpace_of "asr"
    end in
  get_axis_idx anatomical_space axis ≠ 0 →
  get_axis_idx anatomical_space axis ≠ 1 →
  mirror axis origin atlas (self, σ)
  = (Ok tt, (self, <[mesh self := mesh_mirror "z" origin m]> σ)).
Proof.
  intros Haxis Hm sp H0' H1'. rewrite (mirror_run _ _ _ _ _ m Hm).
  unfold resolve_axis. rewrite bool_decide_eq_true_2 by done.
  fold sp. unfold axis_letter.
  destruct (Z.eqb_spec (get_axis_idx sp axis) 0); [done|].
  destruct (Z.eqb_spec (get_axis_idx sp axis) 1); [done|].
  reflexivity.
Qed.

Lemma py_getattr_result (σ σ' : list Mesh) l attr :
  σ' !! l = σ !! l → (py_getattr l attr σ').1 = (py_getattr l attr σ).1.
Proof.
  intros Hsame. unfold py_getattr, obj_get, mbind, prog_bind. rewrite Hsame.
  destruct (σ !! l) as [m|]; [|done]. by destruct (mesh_attr m attr).
Qed.

(** X17.  [mirror] changes the object of the primary mesh and nothing
    else: the store keeps its size, every other object is as before, the
    secondary mesh included, so the attributes the actor delegates to the
    secondary mesh answer after the call as they did before it. *)
Theorem mirror_spares_secondary_mesh axis origin atlas self (σ : list Mesh) m :
  σ !! mesh self = Some m →
  ∃ σ',
    mirror axis origin atlas (self, σ) = (Ok tt, (self, σ'))
    ∧ length σ' = length σ
    ∧ (∀ l, l ≠ mesh self → σ' !! l = σ !! l)
    ∧ (∀ m2 attr,
         own__mesh self = Some m2 → m2 ≠ mesh self →
         attr ≠ "center_of_mass"%string →
         (__getattr__ self attr σ').1 = (__getattr__ self attr σ).1).
Proof.
  intros Hm. eexists. split_and!.
  - by apply mirror_run.
  - apply length_insert.
  - intros l Hl. by apply list_lookup_insert_ne.
  - intros m2 attr Hm2 Hne Hattr.
    rewrite !Actor_getattr_delegate, late_attr_delegate by done.
    rewrite Hm2. simpl. apply py_getattr_result.
    by apply list_lookup_insert_ne.
Qed.

(** X18.  Two calls of [mirror] in a row leave the mesh mirrored about the
    first axis and then about the second, each axis resolved on its own;
    no other object of the store is involved. *)
Theorem mirror_twice axis1 origin1 atlas1 axis2 origin2 atlas2 self (σ : list Mesh) m :
  σ !! mesh self = Some m →
  (mirror axis1 origin1 atlas1;; mirror axis2 origin2 atlas2) (self, σ)
  = (Ok tt,
     (self, <[mesh self := mesh_mirror (resolve_axis axis2 atlas2) origin2
                             (mesh_mirror (resolve_axis axis1 atlas1) origin1 m)]> σ)).
Proof.
  intros Hm.
  erewrite bind_ok by (by apply mirror_run).
  erewrite mirror_run.
  2:{ apply list_lookup_insert_eq. by eapply lookup_lt_Some. }
  by rewrite list_insert_insert_eq.
Qed.

(** ** The constructor *)

(** X19.  The constructor changes at most the object of the mesh it was
    given, first by the colour, then by the opacity, each only when the
    argument is truthy; the new actor points at that object, has an empty
    instance dictionary beyond its four fields, and an absent or empty name
    or class becomes "Actor" or "None". *)
Theorem init_effect (σ : list Mesh) l m name br_class is_text color alpha :
  σ !! l = Some m →
  __init__ l name br_class is_text color alpha σ
  = (Ok (mkActor l (str_or name "Actor") (str_or br_class "None") is_text
           None None None None None None None None None None),
     <[l := (if truthy alpha then mesh_alpha alpha else id)
              ((if truthy color then mesh_c color else id) m)]> σ).
Proof.
  intros Hl. unfold __init__.
  destruct (truthy color) eqn:Hcolor, (truthy alpha) eqn:Halpha.
  - erewrite bind_ok by (by apply obj_call_ok).
    erewrite bind_ok.
    2:{ apply obj_call_ok, list_lookup_insert_eq. by eapply lookup_lt_Some. }
    by rewrite list_insert_insert_eq.
  - erewrite bind_ok by (by apply obj_call_ok). reflexivity.
  - erewrite bind_ok by reflexivity.
    erewrite bind_ok by (by apply obj_call_ok). reflexivity.
  - simpl. unfold mbind, prog_bind, mret, prog_ret. by rewrite list_insert_id.
Qed.

Lemma str_or_nonempty v dflt : dflt ≠ ""%string → str_or v dflt ≠ ""%string.
Proof.
  intros Hd. unfold str_or. destruct v as [s|]; [|done].
  destruct (String.eqb_spec s ""); done.
Qed.

(** X20.  Every actor that leaves the constructor has a name and a class
    that are not empty, needs no label and no silhouette, is neither
    transformed nor added, and has no labels, no silhouette and no
    secondary mesh. *)
Theorem init_invariant (σ : list Mesh) l nm cls is_text color alpha self :
  (__init__ l nm cls is_text color alpha σ).1 = Ok self →
  name self ≠ ""%string
  ∧ br_class self ≠ ""%string
  ∧ mesh self = l
  ∧ _needs_label self = false
  ∧ _needs_silhouette self = false
  ∧ _is_transformed self = false
  ∧ _is_added self = false
  ∧ labels self = []
  ∧ silhouette self = None
  ∧ own__mesh self = None.
Proof.
  intros Hrun.
  assert (Hself : self = mkActor l (str_or nm "Actor") (str_or cls "None")
                           is_text None None None None None None None None None None).
  { revert Hrun. unfold __init__, obj_call, mbind, prog_bind, mret, prog_ret.
    destruct (truthy color), (truthy alpha); destruct (σ !! l) as [m|];
      simpl; try discriminate; try congruence.
    all: destruct (<[l:=mesh_c color m]> σ !! l); simpl; congruence. }
  subst self. simpl. split_and!; try reflexivity; by apply str_or_nonempty.
Qed.

(** ** The anchor *)

Lemma argmin_from_shift c (l : list Z) :
  ∀ bi b i,
    argmin_from bi (b + c) i ((λ y, y + c) <$> l) = argmin_from bi b i l.
Proof.
  induction l as [|x l IH]; intros bi b i; simpl; [done|].
  destruct (Z.ltb_spec (x + c) (b + c)), (Z.ltb_spec x b); try lia; apply IH.
Qed.

Lemma np_argmin_shift c (l : list Z) :
  np_argmin ((λ y, y + c) <$> l) = np_argmin l.
Proof.
  destruct l as [|x l]; [done|]. simpl. by rewrite argmin_from_shift.
Qed.

(** X21.  Moving every vertex of the mesh by the same vector moves the
    anchor with it (the third coordinate with the opposite sign, since it
    is negated at the end), and an empty mesh stays an error: the choice of
    the topmost vertex does not depend on where the mesh lies. *)
Theorem label_point_follows_translation (points : list vec3) (offset d : vec3) :
  label_point ((λ v, vadd v d) <$> points) offset
  = match label_point points offset with
    | Ok a => Ok (vadd a (negate_third d))
    | Raise e => Raise e
    end.
Proof.
  unfold label_point.
  assert (Hshift : vy <$> ((λ v, vadd v d) <$> points)
                   = (λ y, y + vy d) <$> (vy <$> points)).
  { rewrite <- !list_fmap_compose. by apply list_fmap_ext. }
  rewrite Hshift, np_argmin_shift.
  destruct (np_argmin (vy <$> points)) as [i|e]; [|done].
  unfold np_row. rewrite list_lookup_fmap.
  destruct (points !! i) as [v|]; simpl; [|done].
  unfold negate_third, vadd. simpl. do 2 f_equal; lia.
Qed.

End MoreProperties.

(** * The further properties on concrete inputs *)

Lemma brittle_atlas_only_index_errors : only_index_errors brittle_atlas.
Proof. intros p e. split; simpl; intros Heq; congruence. Qed.

Lemma tetra_has_geometry σ : has_geometry (tetra :: σ) (plain 0%nat).
Proof. exists tetra, tetra. split_and!; [reflexivity | reflexivity | discriminate]. Qed.

Lemma make_actor_label_empty_batch_witness :
  make_actor_label atlas (Many []) (PStr "root") (PInt 300) PNone (PInt 100)
    0 (-500) 0 [tetra]
  = (Ok [], [tetra]).
Proof. apply make_actor_label_empty_batch. left. reflexivity. Defined.


Lemma hemisphere_error_propagates_witness :
  make_actor_label strict_atlas (One (plain 0%nat)) (PStr "root")
    (PInt 300) PNone (PInt 100) 0 (-500) 0 [tetra]
  = (Raise ValueError, [tetra]).
Proof.
  apply (hemisphere_error_propagates strict_atlas (One (plain 0%nat)) (PStr "root")
           (PInt 300) PNone (PInt 100) 0 (-500) 0 [tetra] (plain 0%nat) (PStr "root")
           [] tetra (V3 1000 0 (-500)) ValueError);
    [reflexivity | reflexivity | reflexivity | reflexivity | discriminate].
Defined.

Lemma left_hemisphere_is_mirrored_witness :
  ∃ ls σ' l,
    make_actor_label atlas (One (plain 0%nat)) (PStr "root")
      (PInt 300) PNone (PInt 100) (-1000) (-500) 0 [tetra]
    = (Ok ls, σ')
    ∧ l ∈ ls
    ∧ σ' !! l = Some (text_obj (PStr "root") (V3 1000 0 10900) (PInt 300) default_color).
Proof.
  apply (left_hemisphere_is_mirrored atlas (One (plain 0%nat)) (PStr "root")
           (PInt 300) PNone (PInt 100) (-1000) (-500) 0 [tetra] (plain 0%nat)
           (PStr "root") tetra (V3 1000 0 500) "left" (V3 1000 0 10900)
           sample_atlas_only_index_errors).
  - constructor; [apply tetra_has_geometry | constructor].
  - by left.
  - reflexivity.
  - reflexivity.
  - reflexivity.
  - reflexivity.
Defined.

Lemma mirror_miss_is_swallowed_witness :
  ∃ ls σ' l,
    make_actor_label brittle_atlas (One (plain 0%nat)) (PStr "root")
      (PInt 300) PNone (PInt 100) 0 (-500) 0 [tetra]
    = (Ok ls, σ')
    ∧ l ∈ ls
    ∧ σ' !! l = Some (text_obj (PStr "root") (V3 1000 0 (-500)) (PInt 300) default_color).
Proof.
  apply (mirror_miss_is_swallowed brittle_atlas (One (plain 0%nat)) (PStr "root")
           (PInt 300) PNone (PInt 100) 0 (-500) 0 [tetra] (plain 0%nat)
           (PStr "root") tetra (V3 1000 0 (-500)) brittle_atlas_only_index_errors).
  - constructor; [apply tetra_has_geometry | constructor].
  - by left.
  - reflexivity.
  - reflexivity.
  - reflexivity.
  - reflexivity.
Defined.


Lemma marker_sits_on_delegate_witness :
  ∃ ls σ' l,
    make_actor_label atlas (Many [plain 0%nat; staged 0%nat 1%nat])
      (PList [PStr "root"; PStr "TH"]) (PInt 300) PNone (PInt 100) 0 (-500) 0
      [tetra; tetra_coarse]
    = (Ok ls, σ')
    ∧ l ∈ ls
    ∧ σ' !! l = Some (marker_obj
                        (negate_third (closest_point tetra_coarse (V3 1000 0 (-500))))
                        (PInt 100) default_color).
Proof.
  apply (marker_sits_on_delegate atlas (Many [plain 0%nat; staged 0%nat 1%nat])
           (PList [PStr "root"; PStr "TH"]) (PInt 300) PNone (PInt 100) 0 (-500) 0
           [tetra; tetra_coarse] (staged 0%nat 1%nat) (PStr "TH") tetra tetra_coarse
           (V3 1000 0 (-500)) (V3 1000 0 (-500)));
    [discriminate | apply sample_atlas_only_index_errors | apply sample_has_geometry
     | | reflexivity | reflexivity | reflexivity | reflexivity].
  right. by left.
Defined.

Lemma make_label_wraps_synthesizer_witness :
  ∃ lbls σ',
    make_label atlas (staged 0%nat 1%nat, [tetra; tetra_coarse])
    = (Ok lbls,
       (set_labels lbls (set_needs_label false (staged 0%nat 1%nat)), σ'))
    ∧ br_class <$> lbls = ["label"; "label"]%string
    ∧ mesh <$> lbls = [2; 3]%nat.
Proof.
  destruct (make_label_wraps_synthesizer (Mesh:=smesh) (H:=facade)
              atlas (staged 0%nat 1%nat)
              [tetra; tetra_coarse] (PStr "root")
              {| kw_size := None; kw_color := None; kw_radius := Some (PInt 100);
                 kw_xoffset := None; kw_yoffset := None; kw_zoffset := None |}
              [2; 3]%nat
              (make_actor_label_kw (Mesh:=smesh) (H:=facade)
                 atlas (One (staged 0%nat 1%nat)) (PStr "root")
                 {| kw_size := None; kw_color := None; kw_radius := Some (PInt 100);
                    kw_xoffset := None; kw_yoffset := None; kw_zoffset := None |}
                 [tetra; tetra_coarse]).2
              eq_refl eq_refl ltac:(vm_compute; reflexivity)) as (Hrun & _ & _).
  do 2 eexists. split_and!; [exact Hrun | reflexivity | reflexivity].
Defined.

Lemma make_label_passes_error_on_witness :
  make_label strict_atlas (unstaged 0%nat, [tetra_far])
  = (Raise ValueError, (unstaged 0%nat, [tetra_far])).
Proof.
  apply (make_label_passes_error_on (Mesh:=smesh) (H:=facade)
           strict_atlas (unstaged 0%nat) [tetra_far]
           (PList [PStr "root"; PStr "spare"])
           {| kw_size := None; kw_color := Some (PStr "red"); kw_radius := Some PNone;
              kw_xoffset := Some (-1000); kw_yoffset := None; kw_zoffset := None |}
           ValueError [tetra_far] eq_refl eq_refl).
  vm_compute. reflexivity.
Defined.

Lemma make_silhouette_missing_key_witness :
  make_silhouette (half_configured 0%nat 1%nat, [tetra; tetra_coarse])
  = (Raise KeyError, (half_configured 0%nat 1%nat, [tetra; tetra_coarse])).
Proof.
  apply (make_silhouette_missing_key (half_configured 0%nat 1%nat)
           [tetra; tetra_coarse] {| sk_lw := Some (PInt 2); sk_color := None |} eq_refl).
  right. reflexivity.
Defined.


Lemma make_silhouette_without_config_witness :
  make_silhouette (plain 0%nat, [tetra])
  = (Raise AttributeError, (plain 0%nat, [tetra])).
Proof.
  apply (make_silhouette_without_config (plain 0%nat) [tetra] tetra); reflexivity.
Defined.

Lemma mirror_literal_axis_witness :
  mirror "diagonal" None (Some atlas) (plain 0%nat, [tetra])
  = (Ok tt, (plain 0%nat, [tetra])).
Proof.
  rewrite (mirror_literal_axis "diagonal" None (Some atlas) (plain 0%nat) [tetra] tetra).
  - reflexivity.
  - intros Hin. repeat (apply elem_of_cons in Hin as [Hin | Hin]; [discriminate|]).
    by apply elem_of_nil in Hin.
  - reflexivity.
Defined.

Lemma mirror_other_index_is_z_witness :
  mirror "sagittal" None (Some odd_atlas) (plain 0%nat, [tetra])
  = mirror "z" None None (plain 0%nat, [tetra]).
Proof.
  rewrite (mirror_other_index_is_z "sagittal" None (Some odd_atlas) (plain 0%nat)
             [tetra] tetra);
    [reflexivity | by left | reflexivity | discriminate | discriminate].
Defined.

Lemma mirror_spares_secondary_mesh_witness :
  ∃ σ',
    mirror "x" None None (staged 0%nat 1%nat, [tetra; tetra_coarse])
    = (Ok tt, (staged 0%nat 1%nat, σ'))
    ∧ σ' !! 1%nat = Some tetra_coarse
    ∧ (__getattr__ (staged 0%nat 1%nat) "npoints" σ').1 = Raise AttributeError.
Proof.
  destruct (mirror_spares_secondary_mesh "x" None None (staged 0%nat 1%nat)
              [tetra; tetra_coarse] tetra eq_refl)
    as (σ' & Hrun & _ & Hframe & Hattr).
  exists σ'. split_and!; [exact Hrun | |].
  - etrans; [apply (Hframe 1%nat); discriminate | reflexivity].
  - etrans; [apply (Hattr 1%nat "npoints"%string);
             [reflexivity | discriminate | discriminate] | reflexivity].
Defined.

Lemma mirror_twice_witness :
  (mirror "x" None None;; mirror "sagittal" None None) (plain 0%nat, [tetra])
  = (Ok tt, (plain 0%nat, [tetra])).
Proof.
  rewrite (mirror_twice "x" None None "sagittal" None None (plain 0%nat) [tetra] tetra);
    reflexivity.
Defined.

Lemma init_effect_witness :
  ∃ self m,
    __init__ 0%nat None (Some "") true (PList []) (PFloat (1 # 2)) [tetra]
    = (Ok self, [m])
    ∧ name self = "Actor"%string ∧ br_class self = "None"%string
    ∧ sm_color m = PStr "gold" ∧ sm_alpha m = PFloat (1 # 2).
Proof.
  do 2 eexists. split_and!.
  - rewrite (init_effect [tetra] 0%nat tetra None (Some ""%string) true (PList [])
               (PFloat (1 # 2)) eq_refl).
    reflexivity.
  - reflexivity.
  - reflexivity.
  - reflexivity.
  - reflexivity.
Defined.

Lemma init_invariant_witness :
  ∃ self σ',
    __init__ 0%nat (Some "") None false (PStr "red") PNone [tetra] = (Ok self, σ')
    ∧ name self ≠ ""%string ∧ labels self = [].
Proof.
  destruct (init_invariant [tetra] 0%nat (Some ""%string) None false (PStr "red") PNone
              (mkActor 0%nat "Actor" "None" false
                 None None None None None None None None None None) eq_refl)
    as (Hname & _ & _ & _ & _ & _ & _ & Hlabels & _).
  do 2 eexists. split_and!; [reflexivity | exact Hname | exact Hlabels].
Defined.
